(** * LunarLander A2C: the training loop and advantage-estimation pipeline

    A shallow embedding of the numerical core of [a2c.ipynb]:
    [generate_trajectory], [calculate_discounted_returns],
    [standardise_returns], [optimise_policy], [optimise_value_function],
    [train_agent] and [evaluate].

    Conventions of the embedding.
    - Python-level numbers (rewards, the discount factor, scores) are exact
      rationals [Q]; Python's [==] on them is [Qeq].
    - Tensor-level numbers are exact reals extended with one non-finite
      element (see [tval]); rounding and overflow of float32 are not part
      of the model.
    - Exceptions are values of [result].
    - The simulator, the two networks, the automatic differentiation engine
      and the Adam update rule are parameters of the development. *)

From Stdlib Require Import ZArith QArith Qpower Qabs Qreals Reals Lqa Lra Lia
  List Bool.
From stdpp Require Import base option list gmap.
Import ListNotations.

Set Default Proof Using "Type".

(** ** Exceptions *)

Inductive error : Type :=
| ValueError
| ZeroDivisionError
| RuntimeError
| UnboundLocalError.

Inductive result (A : Type) : Type :=
| Ok (a : A)
| Raise (e : error).

Arguments Ok {A} a.
Arguments Raise {A} e.

#[global] Instance result_ret : MRet result := fun A a => Ok a.
#[global] Instance result_bind : MBind result := fun A B f m =>
  match m with
  | Ok a => f a
  | Raise e => Raise e
  end.

#[global] Instance result_fmap : FMap result := fun A B f m =>
  match m with
  | Ok a => Ok (f a)
  | Raise e => Raise e
  end.

(** ** [collections.deque] with a bound *)

Module Deque.

Record deque (A : Type) : Type := mk {
  maxlen : nat;
  items : list A
}.
Arguments mk {A} maxlen items.
Arguments maxlen {A} d.
Arguments items {A} d.

(** [deque(maxlen=n)]: a negative bound raises [ValueError]. *)
Definition new {A} (n : Z) : result (deque A) :=
  if (n <? 0)%Z then Raise ValueError else Ok (mk (Z.to_nat n) []).

Definition len {A} (d : deque A) : nat := length (items d).

(** CPython stores the new item first and then, when the deque has
    grown past its bound, discards one item at the opposite end. *)
Definition appendleft {A} (x : A) (d : deque A) : deque A :=
  let l := x :: items d in
  mk (maxlen d) (if (maxlen d <? length l)%nat then removelast l else l).

Definition append {A} (x : A) (d : deque A) : deque A :=
  let l := items d ++ [x] in
  mk (maxlen d) (if (maxlen d <? length l)%nat then tl l else l).

End Deque.

Import Deque.

(** ** Return Calculator *)

(** [range(n_steps)[::-1]] *)
Definition reversed_range (n : nat) : list nat := rev (seq 0 n).

Definition calculate_discounted_returns
    (rewards : list Q) (max_steps : Z) (gamma : Q) : result (deque Q) :=
  returns ← Deque.new max_steps;
  let n_steps := length rewards in
  Ok (fold_left
        (fun (returns : deque Q) (step : nat) =>
           let disc_return :=
             if (0 <? len returns)%nat then nth 0 (items returns) 0%Q else 0%Q in
           appendleft (nth step rewards 0%Q + gamma * disc_return)%Q returns)
        (reversed_range n_steps) returns).

(** The backward recursion the loop computes when nothing is discarded. *)
Fixpoint discounted (gamma : Q) (rewards : list Q) : list Q :=
  match rewards with
  | [] => []
  | r :: rest =>
      let tail := discounted gamma rest in
      (r + gamma * match tail with [] => 0 | g :: _ => g end)%Q :: tail
  end.

(** ** Tensor values

    A tensor element is an exact real or the non-finite value [NaN].  [NaN]
    is absorbing, and dividing by zero gives [NaN]: exact arithmetic reaches
    a non-finite value only through such a division, and the model does not
    tell an IEEE infinity from an IEEE NaN. *)

Inductive tval : Type :=
| Fin (x : R)
| NaN.

Definition is_finite (v : tval) : bool :=
  match v with Fin _ => true | NaN => false end.

Definition tv_lift2 (f : R -> R -> R) (a b : tval) : tval :=
  match a, b with
  | Fin x, Fin y => Fin (f x y)
  | _, _ => NaN
  end.

Definition tv_add : tval -> tval -> tval := tv_lift2 Rplus.
Definition tv_sub : tval -> tval -> tval := tv_lift2 Rminus.
Definition tv_mul : tval -> tval -> tval := tv_lift2 Rmult.

Definition tv_neg (a : tval) : tval :=
  match a with Fin x => Fin (- x) | NaN => NaN end.

Definition tv_div (a b : tval) : tval :=
  match a, b with
  | Fin x, Fin y => if Req_dec_T y 0 then NaN else Fin (x / y)
  | _, _ => NaN
  end.

Definition tv_sqrt (a : tval) : tval :=
  match a with
  | Fin x => if Rlt_dec x 0 then NaN else Fin (sqrt x)
  | NaN => NaN
  end.

Definition tv_sum (l : list tval) : tval := fold_left tv_add l (Fin 0).

(** [t.mean()]: the sum divided by the number of elements. *)
Definition torch_mean (l : list tval) : tval :=
  tv_div (tv_sum l) (Fin (INR (length l))).

(** [t.std()]: the sample standard deviation with Bessel's correction,
    the square root of the sum of squared deviations from the mean divided
    by [max(0, N - 1)]. *)
Definition torch_std (l : list tval) : tval :=
  let m := torch_mean l in
  let sq := map (fun x => tv_mul (tv_sub x m) (tv_sub x m)) l in
  tv_sqrt (tv_div (tv_sum sq) (Fin (INR (length l - 1)))).

(** The same statistics on reals, for stating what the tensor versions
    compute on finite data. *)
Definition rsum (l : list R) : R := fold_right Rplus 0%R l.

Definition rmean (l : list R) : R := (rsum l / INR (length l))%R.

Definition rstd (l : list R) : R :=
  sqrt (rsum (map (fun x => (x - rmean l) * (x - rmean l))%R l)
        / INR (length l - 1)).

(** ** Tensors and the parameter store

    A tensor carries its elements (shapes are flattened: a tensor with one
    element stands for every shape of one element) and the leaves of its
    autograd graph, the parameters a backward pass through it reaches. *)

Abbreviation ParamId := positive.

Record Tensor : Type := mkTensor {
  t_data : list tval;
  t_leaves : gset ParamId
}.

(** [torch.tensor(data)]: a fresh tensor with no graph. *)
Definition torch_tensor (data : list tval) : Tensor := mkTensor data ∅.

Definition detach (t : Tensor) : Tensor := mkTensor (t_data t) ∅.

(** ** Return Standardizer *)

(** [np.finfo(np.float32).eps]: 2^-23. *)
Definition eps : R := (/ 2 ^ 23)%R.

Definition standardise_returns (returns : deque Q) : Tensor :=
  let returns := torch_tensor (map (fun q => Fin (Q2R q)) (items returns)) in
  let mean := torch_mean (t_data returns) in
  let std := torch_std (t_data returns) in
  mkTensor
    (map (fun x => tv_div (tv_sub x mean) (tv_add std (Fin eps))) (t_data returns))
    (t_leaves returns).

(** ** Python and NumPy helpers *)

(** [range(a, b)] *)
Definition py_range (a b : Z) : list Z :=
  map (fun i => (a + Z.of_nat i)%Z) (seq 0 (Z.to_nat (b - a))).

(** [a % b] *)
Definition py_mod (a b : Z) : result Z :=
  if (b =? 0)%Z then Raise ZeroDivisionError else Ok (a mod b)%Z.

(** [sum(l)] *)
Definition py_sum (l : list Q) : Q := fold_left Qplus l 0%Q.

(** [np.mean(l)]: [None] stands for the NaN of an empty input. *)
Definition np_mean (l : list Q) : option Q :=
  match l with
  | [] => None
  | _ => Some (py_sum l / inject_Z (Z.of_nat (length l)))%Q
  end.

Definition q_max (a b : Q) : Q := if Qle_bool a b then b else a.
Definition q_min (a b : Q) : Q := if Qle_bool a b then a else b.

(** [np.max(l)] and [np.min(l)] refuse an empty input. *)
Definition np_max (l : list Q) : result Q :=
  match l with
  | [] => Raise ValueError
  | x :: l' => Ok (fold_left q_max l' x)
  end.

Definition np_min (l : list Q) : result Q :=
  match l with
  | [] => Raise ValueError
  | x :: l' => Ok (fold_left q_min l' x)
  end.

(** A sequence all of whose entries are numerically equal. *)
Definition constant_seq (l : list Q) : Prop :=
  exists v : Q, Forall (fun x => (x == v)%Q) l.

(** ** External collaborators

    The environment adapter, the tensor library's opaque data and update
    rule, and the two networks with the differentiation engine. *)

Class Simulator : Type := {
  Obs : Type;
  Action : Type;
  EnvState : Type;
  (** [env.reset()], without the info dictionary *)
  env_reset : EnvState -> Obs * EnvState;
  (** [env.step(action)]: observation, reward, terminated, truncated *)
  env_step : EnvState -> Action -> (Obs * Q * bool * bool) * EnvState
}.

Class TensorLib : Type := {
  (** the state of the global random generator *)
  Rng : Type;
  (** the contents of a parameter tensor or of a gradient buffer *)
  PData : Type;
  pd_add : PData -> PData -> PData;
  (** the moment estimates an Adam optimizer keeps *)
  OptState : Type;
  opt_init : OptState;
  adam_update : OptState -> ParamId -> PData -> PData -> OptState * PData
}.

Record PEntry `{TensorLib} : Type := mkP {
  p_data : PData;
  p_grad : option PData
}.
Arguments mkP {_} p_data p_grad.

(** An [nn.Module] is known by the parameters it owns. *)
Record Module : Type := mkModule {
  parameters : list ParamId
}.

Record Optimizer : Type := mkOpt {
  opt_id : positive;
  param_group : list ParamId
}.

(** [optim.Adam(params, lr)] *)
Definition Adam (id : positive) (params : list ParamId) : Optimizer :=
  mkOpt id params.

Class Networks `{Simulator} `{TensorLib} : Type := {
  (** sampling from [Categorical(policy.forward(state))]: the action, the
      value of its log-probability and the advanced generator *)
  policy_sample :
    Module -> gmap ParamId PEntry -> Obs -> Rng -> (Action * tval) * Rng;
  (** [value_function.forward(state)] *)
  value_forward : Module -> gmap ParamId PEntry -> Obs -> tval;
  (** the gradient of a scalar loss with respect to one leaf *)
  autograd : Tensor -> ParamId -> gmap ParamId PEntry -> PData
}.

(** What [print] writes. *)
Inductive LogLine : Type :=
| EarlyStopLine (i_episode : Z)
| StatsLine (i_episode : Z) (avg : option Q) (best worst : Q)
| EvalHeader (num_episodes : Z)
| EvalAverageReward (avg : option Q)
| EvalAverageLength (avg : option Q).

Record World `{Simulator} `{TensorLib} : Type := mkWorld {
  w_env : EnvState;
  w_rng : Rng;
  w_store : gmap ParamId PEntry;
  w_opt : gmap positive OptState;
  w_stdout : list LogLine
}.
Arguments mkWorld {_ _} w_env w_rng w_store w_opt w_stdout.

Section Agent.
Context `{Sim : Simulator} `{TL : TensorLib} `{Net : !Networks}.

Definition set_env (env : EnvState) (w : World) : World :=
  mkWorld env (w_rng w) (w_store w) (w_opt w) (w_stdout w).

Definition set_rng (rng : Rng) (w : World) : World :=
  mkWorld (w_env w) rng (w_store w) (w_opt w) (w_stdout w).

Definition set_store (store : gmap ParamId PEntry) (w : World) : World :=
  mkWorld (w_env w) (w_rng w) store (w_opt w) (w_stdout w).

Definition set_opt (opt : gmap positive OptState) (w : World) : World :=
  mkWorld (w_env w) (w_rng w) (w_store w) opt (w_stdout w).

Definition print (line : LogLine) (w : World) : World :=
  mkWorld (w_env w) (w_rng w) (w_store w) (w_opt w) (w_stdout w ++ [line]).

(** [policy.act(state)] *)
Definition act (policy : Module) (state : Obs) (w : World)
  : (Action * Tensor) * World :=
  let '((action, lp), rng) := policy_sample policy (w_store w) state (w_rng w) in
  ((action, mkTensor [lp] (list_to_set (parameters policy))), set_rng rng w).

(** [value_function(state)] *)
Definition call_value (value_function : Module) (state : Obs) (w : World)
  : Tensor :=
  mkTensor [value_forward value_function (w_store w) state]
           (list_to_set (parameters value_function)).

(** ** Trajectory Generator *)

(** The body of the loop up to the [if done] test. *)
Definition trajectory_step (policy value_function : Module) (state : Obs)
    (w : World) : (Tensor * Q * Tensor * Obs * bool) * World :=
  let '((action, log_prob), w) := act policy state w in
  let value := call_value value_function state w in
  let '((next_state, reward, done, truncated), env) := env_step (w_env w) action in
  ((log_prob, reward, value, next_state, done), set_env env w).

Fixpoint trajectory_loop (policy value_function : Module) (steps : nat)
    (state : Obs) (log_probs : list Tensor) (rewards : list Q)
    (state_values : list Tensor) (w : World)
  : (list Tensor * list Q * list Tensor) * World :=
  match steps with
  | O => ((log_probs, rewards, state_values), w)
  | S steps' =>
      let '((log_prob, reward, value, next_state, done), w) :=
        trajectory_step policy value_function state w in
      let rewards := rewards ++ [reward] in
      let log_probs := log_probs ++ [log_prob] in
      let state_values := state_values ++ [value] in
      if done then ((log_probs, rewards, state_values), w)
      else trajectory_loop policy value_function steps' next_state
             log_probs rewards state_values w
  end.

Definition generate_trajectory (policy value_function : Module)
    (max_steps : Z) (w : World)
  : (list Tensor * list Q * list Tensor) * World :=
  let '(state, env) := env_reset (w_env w) in
  trajectory_loop policy value_function (Z.to_nat max_steps) state [] [] []
    (set_env env w).

(** The termination flags of the first [steps] interactions when nothing
    interrupts them. *)
Fixpoint done_flags (policy value_function : Module) (steps : nat)
    (state : Obs) (w : World) : list bool :=
  match steps with
  | O => []
  | S steps' =>
      let '((_, _, _, next_state, done), w) :=
        trajectory_step policy value_function state w in
      done :: done_flags policy value_function steps' next_state w
  end.

(** ** Tensor operations used by the two optimisation steps *)

(** [torch.stack] and [torch.cat] refuse an empty list. *)
Definition torch_stack (ts : list Tensor) : result Tensor :=
  match ts with
  | [] => Raise RuntimeError
  | _ => Ok (mkTensor (concat (map t_data ts)) (⋃ (map t_leaves ts)))
  end.

Definition torch_cat (ts : list Tensor) : result Tensor :=
  match ts with
  | [] => Raise RuntimeError
  | _ => Ok (mkTensor (concat (map t_data ts)) (⋃ (map t_leaves ts)))
  end.

(** On flattened tensors [squeeze] changes nothing. *)
Definition squeeze (t : Tensor) : Tensor := t.

(** An elementwise operation with broadcasting: a tensor of one element
    is stretched, two sizes that differ otherwise are refused. *)
Definition broadcast2 (f : tval -> tval -> tval) (a b : Tensor)
  : result Tensor :=
  let leaves := t_leaves a ∪ t_leaves b in
  match t_data a, t_data b with
  | [x], ys => Ok (mkTensor (map (f x) ys) leaves)
  | xs, [y] => Ok (mkTensor (map (fun x => f x y) xs) leaves)
  | xs, ys =>
      if (length xs =? length ys)%nat
      then Ok (mkTensor (zip_with f xs ys) leaves)
      else Raise RuntimeError
  end.

Definition t_neg (t : Tensor) : Tensor :=
  mkTensor (map tv_neg (t_data t)) (t_leaves t).

Definition t_sum (t : Tensor) : Tensor :=
  mkTensor [tv_sum (t_data t)] (t_leaves t).

(** Iterating over a tensor yields its elements as tensors. *)
Definition iter_tensor (t : Tensor) : list Tensor :=
  map (fun x => mkTensor [x] (t_leaves t)) (t_data t).

(** [F.mse_loss(input, target)] *)
Definition mse_loss (input target : Tensor) : result Tensor :=
  d ← broadcast2 tv_sub input target;
  Ok (mkTensor [torch_mean (map (fun x => tv_mul x x) (t_data d))] (t_leaves d)).

(** ** The optimizer and the backward pass *)

(** [optimizer.zero_grad()] clears the gradient buffers of its own
    parameters. *)
Definition zero_grad (opt : Optimizer) (w : World) : World :=
  set_store
    (foldl (fun store id => alter (fun e => mkP (p_data e) None) id store)
           (w_store w) (param_group opt))
    w.

(** [loss.backward()] accumulates a gradient into every leaf of the graph
    of [loss]; a loss without a graph is refused. *)
Definition backward (loss : Tensor) (w : World) : result World :=
  if decide (t_leaves loss = ∅) then Raise RuntimeError
  else
    Ok (set_store
          (foldl (fun store id =>
                    let g := autograd loss id (w_store w) in
                    alter (fun e =>
                             mkP (p_data e)
                                 (Some match p_grad e with
                                       | None => g
                                       | Some g0 => pd_add g0 g
                                       end))
                          id store)
                 (w_store w) (elements (t_leaves loss)))
          w).

(** [optimizer.step()] updates each of its own parameters that has a
    gradient. *)
Definition step_param (acc : gmap ParamId PEntry * OptState) (id : ParamId)
  : gmap ParamId PEntry * OptState :=
  let '(store, st) := acc in
  match store !! id with
  | Some (mkP d (Some g)) =>
      let '(st', d') := adam_update st id d g in
      (<[id := mkP d' (Some g)]> store, st')
  | _ => (store, st)
  end.

Definition step (opt : Optimizer) (w : World) : World :=
  let st0 := default opt_init (w_opt w !! opt_id opt) in
  let '(store, st) := foldl step_param (w_store w, st0) (param_group opt) in
  set_opt (<[opt_id opt := st]> (w_opt w)) (set_store store w).

(** ** Advantage and optimisation step *)

Definition optimise_policy (policy_optimizer : Optimizer)
    (log_probs : list Tensor) (returns : Tensor) (state_values : list Tensor)
    (w : World) : result World :=
  state_values ← squeeze <$> torch_stack state_values;
  advantages ← broadcast2 tv_sub returns (detach state_values);
  let advantages := torch_tensor (t_data advantages) in
  policy_loss ←
    mapM (fun '(log_prob, advantage) =>
            broadcast2 tv_mul (t_neg log_prob) advantage)
         (zip log_probs (iter_tensor advantages));
  policy_loss ← t_sum <$> torch_cat policy_loss;
  let w := zero_grad policy_optimizer w in
  w ← backward policy_loss w;
  Ok (step policy_optimizer w).

Definition optimise_value_function (value_optimizer : Optimizer)
    (returns : Tensor) (state_values : list Tensor) (w : World)
  : result World :=
  state_values ← squeeze <$> torch_stack state_values;
  value_loss ← mse_loss state_values returns;
  let w := zero_grad value_optimizer w in
  w ← backward value_loss w;
  Ok (step value_optimizer w).

(** ** Training Driver *)

(** The early-stopping test at the end of an episode: [Some w] when the loop
    breaks, with the two lines printed. *)
Definition early_stopping (early_stopping_threshold : option Q)
    (i_episode : Z) (recent_scores : deque Q) (w : World)
  : result (option World) :=
  match early_stopping_threshold with
  | Some threshold =>
      if (len recent_scores =? maxlen recent_scores)%nat then
        match np_mean (items recent_scores) with
        | Some avg_score =>
            if Qle_bool threshold avg_score then
              best_score ← np_max (items recent_scores);
              worst_score ← np_min (items recent_scores);
              Ok (Some (print (StatsLine i_episode (Some avg_score)
                                         best_score worst_score)
                              (print (EarlyStopLine i_episode) w)))
            else Ok None
        | None => Ok None
        end
      else Ok None
  | None => Ok None
  end.

Definition log_progress (i_episode log_interval : Z)
    (recent_scores : deque Q) (w : World) : result World :=
  r ← py_mod i_episode log_interval;
  if (r =? 0)%Z then
    let avg_score := np_mean (items recent_scores) in
    best_score ← np_max (items recent_scores);
    worst_score ← np_min (items recent_scores);
    Ok (print (StatsLine i_episode avg_score best_score worst_score) w)
  else Ok w.

Fixpoint train_loop (policy value_function : Module)
    (policy_optimizer value_optimizer : Optimizer)
    (max_steps : Z) (gamma : Q) (log_interval : Z)
    (early_stopping_threshold : option Q)
    (episodes : list Z) (recent_scores : deque Q) (scores : list Q)
    (w : World) : result (list Q * World) :=
  match episodes with
  | [] => Ok (scores, w)
  | i_episode :: episodes' =>
      let '((log_probs, rewards, state_values), w) :=
        generate_trajectory policy value_function max_steps w in
      let episode_score := py_sum rewards in
      let recent_scores := append episode_score recent_scores in
      let scores := scores ++ [episode_score] in
      returns ← calculate_discounted_returns rewards max_steps gamma;
      let standardised_returns := standardise_returns returns in
      w ← optimise_value_function value_optimizer standardised_returns
            state_values w;
      w ← optimise_policy policy_optimizer log_probs standardised_returns
            state_values w;
      stop ← early_stopping early_stopping_threshold i_episode recent_scores w;
      match stop with
      | Some w => Ok (scores, w)
      | None =>
          w ← log_progress i_episode log_interval recent_scores w;
          train_loop policy value_function policy_optimizer value_optimizer
            max_steps gamma log_interval early_stopping_threshold
            episodes' recent_scores scores w
      end
  end.

Definition train_agent (policy value_function : Module)
    (policy_optimizer value_optimizer : Optimizer)
    (num_episodes max_steps : Z) (gamma : Q) (log_interval : Z)
    (early_stopping_threshold : option Q) (w : World)
  : result (list Q * World) :=
  recent_scores ← Deque.new 100;
  train_loop policy value_function policy_optimizer value_optimizer
    max_steps gamma log_interval early_stopping_threshold
    (py_range 1 (num_episodes + 1)) recent_scores [] w.

(** ** Evaluation Driver *)

(** The inner loop; [step] is the loop variable, which keeps its last value
    when the loop is left. *)
Fixpoint evaluate_steps (policy : Module) (steps : list nat) (state : Obs)
    (episode_reward : Q) (step : option nat) (w : World)
  : (Q * option nat) * World :=
  match steps with
  | [] => ((episode_reward, step), w)
  | i :: steps' =>
      let step := Some i in
      let '((action, _), w) := act policy state w in
      let '((state, reward, done, _), env) := env_step (w_env w) action in
      let w := set_env env w in
      let episode_reward := (episode_reward + reward)%Q in
      if done then ((episode_reward, step), w)
      else evaluate_steps policy steps' state episode_reward step w
  end.

Fixpoint evaluate_loop (policy : Module) (max_steps : Z) (episodes : list Z)
    (all_rewards : list Q) (all_steps : list Z) (step : option nat)
    (w : World) : result ((list Q * list Z) * World) :=
  match episodes with
  | [] => Ok ((all_rewards, all_steps), w)
  | i_episode :: episodes' =>
      let '(state, env) := env_reset (w_env w) in
      let w := set_env env w in
      let '((episode_reward, step), w) :=
        evaluate_steps policy (seq 0 (Z.to_nat max_steps)) state 0%Q step w in
      match step with
      | None => Raise UnboundLocalError
      | Some s =>
          evaluate_loop policy max_steps episodes'
            (all_rewards ++ [episode_reward])
            (all_steps ++ [(Z.of_nat s + 1)%Z]) step w
      end
  end.

Definition evaluate (policy : Module) (num_episodes max_steps : Z) (w : World)
  : result ((list Q * list Z) * World) :=
  '((all_rewards, all_steps), w) ←
    evaluate_loop policy max_steps (py_range 1 (num_episodes + 1))
      [] [] None w;
  let avg_reward := np_mean all_rewards in
  let avg_steps := np_mean (map inject_Z all_steps) in
  let w := print (EvalHeader num_episodes) w in
  let w := print (EvalAverageReward avg_reward) w in
  let w := print (EvalAverageLength avg_steps) w in
  Ok ((all_rewards, all_steps), w).

(** ** Reference notions for the two rollout loops *)

(** The number of interactions a loop with [break] on termination performs
    when the uninterrupted run has the given termination flags. *)
Fixpoint steps_until_done (flags : list bool) : nat :=
  match flags with
  | [] => O
  | done :: flags' => if done then 1%nat else S (steps_until_done flags')
  end.

(** The termination flags of an episode that starts with [env.reset()]. *)
Definition episode_flags (policy value_function : Module) (max_steps : Z)
    (w : World) : list bool :=
  let '(state, env) := env_reset (w_env w) in
  done_flags policy value_function (Z.to_nat max_steps) state (set_env env w).

(** One evaluation episode as a relation: from an observation and a world,
    with a budget of steps, the rewards of the steps taken and the world
    they leave.  The episode ends with the first step that reports
    termination, or when the budget is used up. *)
Inductive episode (policy : Module)
  : nat -> Obs -> World -> list Q -> World -> Prop :=
| episode_truncated (state : Obs) (w : World) :
    episode policy O state w [] w
| episode_terminated (budget : nat) (state next : Obs) (w w1 : World)
    (action : Action) (lp : Tensor) (reward : Q) (truncated : bool)
    (env : EnvState) :
    act policy state w = ((action, lp), w1) ->
    env_step (w_env w1) action = ((next, reward, true, truncated), env) ->
    episode policy (S budget) state w [reward] (set_env env w1)
| episode_continues (budget : nat) (state next : Obs) (w w1 w' : World)
    (action : Action) (lp : Tensor) (reward : Q) (truncated : bool)
    (env : EnvState) (rewards : list Q) :
    act policy state w = ((action, lp), w1) ->
    env_step (w_env w1) action = ((next, reward, false, truncated), env) ->
    episode policy budget next (set_env env w1) rewards w' ->
    episode policy (S budget) state w (reward :: rewards) w'.

(** A run of episodes, each started by [env.reset()]. *)
Inductive episodes (policy : Module) (max_steps : Z)
  : nat -> World -> list (list Q) -> World -> Prop :=
| episodes_done (w : World) : episodes policy max_steps O w [] w
| episodes_next (n : nat) (w w1 w2 : World) (state : Obs) (env : EnvState)
    (rewards : list Q) (rest : list (list Q)) :
    env_reset (w_env w) = (state, env) ->
    episode policy (Z.to_nat max_steps) state (set_env env w) rewards w1 ->
    episodes policy max_steps n w1 rest w2 ->
    episodes policy max_steps (S n) w (rewards :: rest) w2.

End Agent.

(** ** Reference notions for the tensors of a trajectory *)

(** A tensor of one element whose graph has the leaves [P]. *)
Definition scalar_on (P : gset ParamId) (t : Tensor) : Prop :=
  length (t_data t) = 1%nat /\ t_leaves t = P.

(** ** Reference notions for the Training Driver *)

(** The rolling window after the scores [history]: the last 100 of them, in
    arrival order. *)
Definition window (history : list Q) : list Q :=
  drop (length history - 100) history.

(** The window holds exactly 100 scores and their mean reaches the
    threshold. *)
Definition stop_condition (threshold : Q) (history : list Q) : bool :=
  (length (window history) =? 100)%nat
  && match np_mean (window history) with
     | Some avg => Qle_bool threshold avg
     | None => false
     end.

(** ** A deterministic stub of the collaborators

    Episodes last [episode_len] steps; the reward of a step depends on the
    number of the episode and of the step.  The networks are constant. *)

Definition stub_simulator (episode_len : nat) (reward_of : nat -> nat -> Q)
  : Simulator := {|
  Obs := nat;
  Action := unit;
  EnvState := nat * nat;
  env_reset := fun '(episode, _) => (O, (S episode, O));
  env_step := fun '(episode, k) _ =>
    ((S k, reward_of episode k, (S k =? episode_len)%nat, false),
     (episode, S k))
|}.

Definition stub_tensorlib : TensorLib := {|
  Rng := unit;
  PData := Z;
  pd_add := Z.add;
  OptState := nat;
  opt_init := O;
  adam_update := fun st _ d g => (S st, (d - g)%Z)
|}.

Definition stub_networks (episode_len : nat) (reward_of : nat -> nat -> Q)
  : @Networks (stub_simulator episode_len reward_of) stub_tensorlib := {|
  policy_sample := fun _ _ _ rng =>
    ((tt : @Action (stub_simulator episode_len reward_of), Fin 0), rng);
  value_forward := fun _ _ _ => Fin 0;
  autograd := fun _ _ _ => (1%Z : @PData stub_tensorlib)
|}.

(** The stub's initial world: policy parameters 1 and 2, value parameters 3
    and 4, no gradients, fresh optimizers. *)
Definition stub_policy : Module := mkModule [1; 2]%positive.
Definition stub_value : Module := mkModule [3; 4]%positive.

Definition stub_store : gmap ParamId (@PEntry stub_tensorlib) :=
  <[1%positive := @mkP stub_tensorlib 10%Z None]>
    (<[2%positive := @mkP stub_tensorlib 20%Z None]>
       (<[3%positive := @mkP stub_tensorlib 30%Z None]>
          (<[4%positive := @mkP stub_tensorlib 40%Z None]> ∅))).

Definition stub_world (episode_len : nat) (reward_of : nat -> nat -> Q)
  : @World (stub_simulator episode_len reward_of) stub_tensorlib :=
  @mkWorld (stub_simulator episode_len reward_of) stub_tensorlib
    (O, O) tt stub_store ∅ [].

Definition stub_policy_optimizer : Optimizer :=
  Adam 1 (parameters stub_policy).
Definition stub_value_optimizer : Optimizer :=
  Adam 2 (parameters stub_value).

(** A two-step trajectory of the stub and its standardised returns. *)
Definition stub_log_probs : list Tensor :=
  replicate 2 (mkTensor [Fin 0] (list_to_set (parameters stub_policy))).
Definition stub_state_values : list Tensor :=
  replicate 2 (mkTensor [Fin 0] (list_to_set (parameters stub_value))).
Definition stub_returns : Tensor := torch_tensor [Fin 1; Fin (-1)].

(** Rewards for the early-stopping scenario: episodes 1 to 50 score 0, later
    episodes score 230 in two steps of 115. *)
Definition late_reward (episode step : nat) : Q :=
  if (episode <=? 50)%nat then 0 else 115.

(** ** Reference notions for the discounted returns *)

(** The discounted sum [gamma^k * l[0] + gamma^(k+1) * l[1] + ...]. *)
Fixpoint power_sum (gamma : Q) (k : nat) (l : list Q) : Q :=
  match l with
  | [] => 0
  | r :: rest => (gamma ^ Z.of_nat k * r + power_sum gamma (S k) rest)%Q
  end.

(** ** Reference notions for the progress log *)

(** The line the driver prints at the end of episode [i] when the scores so
    far are [history]: mean, best and worst of the rolling window. *)
Definition stats_line (i : Z) (history : list Q) : list LogLine :=
  match window history with
  | [] => []
  | x :: l =>
      [StatsLine i (np_mean (x :: l)) (fold_left q_max l x) (fold_left q_min l x)]
  end.

(** The lines of a run that is not stopped early: one for every episode
    whose number is a multiple of the logging interval. *)
Definition progress_log (log_interval : Z) (first count : nat) (scores : list Q)
  : list LogLine :=
  flat_map (fun k => if (Z.of_nat k mod log_interval =? 0)%Z
                     then stats_line (Z.of_nat k) (take k scores) else [])
           (seq first count).

(** A line whose mean lies between its worst and its best score. *)
Definition consistent_line (line : LogLine) : Prop :=
  match line with
  | StatsLine _ (Some avg) best worst => (worst <= avg)%Q /\ (avg <= best)%Q
  | _ => False
  end.

(** * Properties *)

(** ** Return Calculator *)

Section ReturnCalculator.

Lemma appendleft_take {A} (x : A) (d : deque A) (L : list A) :
  items d = take (maxlen d) L ->
  appendleft x d = Deque.mk (maxlen d) (take (maxlen d) (x :: L)).
Proof.
  intros Hd. unfold appendleft. f_equal. rewrite Hd.
  destruct (maxlen d) as [|m].
  - reflexivity.
  - cbn [length]. rewrite length_take.
    destruct (Nat.ltb_spec (S m) (S (S m `min` length L))) as [Hlt|Hge].
    + change (x :: take (S m) L) with (firstn (S (S m)) (x :: L)).
      apply removelast_firstn. cbn [length]. lia.
    + cbn [take firstn]. f_equal. rewrite !take_ge by lia. reflexivity.
Qed.

Lemma reversed_range_S n : reversed_range (S n) = n :: reversed_range n.
Proof. unfold reversed_range. rewrite seq_S, rev_app_distr. reflexivity. Qed.

Lemma returns_loop (gamma : Q) (rewards : list Q) (m : nat) :
  forall (n : nat) (d : deque Q),
    (n <= length rewards)%nat ->
    maxlen d = m ->
    items d = take m (discounted gamma (drop n rewards)) ->
    fold_left
      (fun (returns : deque Q) (step : nat) =>
         let disc_return :=
           if (0 <? len returns)%nat then nth 0 (items returns) 0%Q else 0%Q in
         appendleft (nth step rewards 0%Q + gamma * disc_return)%Q returns)
      (reversed_range n) d
    = Deque.mk m (take m (discounted gamma rewards)).
Proof.
  induction n as [|n IH]; intros d Hn Hm Hd.
  - cbn. destruct d as [k l]. cbn in *. subst. reflexivity.
  - rewrite reversed_range_S. cbn [fold_left]. apply IH; [lia | | ].
    + cbn. exact Hm.
    + destruct (lookup_lt_is_Some_2 rewards n ltac:(lia)) as [r Hr].
      rewrite <- Hm in Hd.
      rewrite (appendleft_take _ d _ Hd). cbn [items]. rewrite Hm.
      rewrite (drop_S _ _ _ Hr). cbn [discounted].
      rewrite nth_lookup, Hr. cbn [default].
      destruct m as [|m']; [reflexivity|].
      cbn [take firstn]. f_equal. f_equal. f_equal.
      unfold len. rewrite Hd, Hm.
      destruct (discounted gamma (drop (S n) rewards)); reflexivity.
Qed.

(** What the function returns, in closed form. *)
Lemma calculate_discounted_returns_eq (rewards : list Q) (max_steps : Z)
    (gamma : Q) :
  calculate_discounted_returns rewards max_steps gamma
  = if (max_steps <? 0)%Z then Raise ValueError
    else Ok (Deque.mk (Z.to_nat max_steps)
               (take (Z.to_nat max_steps) (discounted gamma rewards))).
Proof.
  unfold calculate_discounted_returns, Deque.new.
  destruct (max_steps <? 0)%Z; [reflexivity|].
  cbn. f_equal. apply returns_loop; [lia | reflexivity | ].
  cbn. rewrite drop_all. destruct (Z.to_nat max_steps); reflexivity.
Qed.

Lemma length_discounted gamma rewards :
  length (discounted gamma rewards) = length rewards.
Proof. induction rewards; cbn; congruence. Qed.

Lemma nth_discounted gamma rewards t :
  (t < length rewards)%nat ->
  nth t (discounted gamma rewards) 0%Q
  = (nth t rewards 0 + gamma * nth (S t) (discounted gamma rewards) 0)%Q.
Proof.
  revert t. induction rewards as [|r rest IH]; intros t Ht; cbn in Ht; [lia|].
  destruct t as [|t].
  - cbn. destruct (discounted gamma rest); reflexivity.
  - cbn [discounted nth]. apply IH. lia.
Qed.

(** C1. For a reward sequence of length [T] with [1 <= T <= max_steps] and
    any discount factor (in particular one in (0,1)), the Return Calculator
    returns a sequence [returns] of length [T] with
    [returns[T-1] == r[T-1]] and, for every [t < T-1],
    [returns[t] == r[t] + gamma * returns[t+1]]; on [[1,1,1,1,1]] with
    [gamma = 1] it returns [[5,4,3,2,1]]. *)
Theorem discounted_returns_recursion :
  (forall (rewards : list Q) (max_steps : Z) (gamma : Q),
      let T := length rewards in
      (1 <= T)%nat ->
      (Z.of_nat T <= max_steps)%Z ->
      exists returns : deque Q,
        calculate_discounted_returns rewards max_steps gamma = Ok returns /\
        length (items returns) = T /\
        (nth (T - 1) (items returns) 0 == nth (T - 1) rewards 0)%Q /\
        forall t : nat,
          (t < T - 1)%nat ->
          (nth t (items returns) 0
           == nth t rewards 0 + gamma * nth (t + 1) (items returns) 0)%Q)
  /\ items <$> calculate_discounted_returns [1; 1; 1; 1; 1]%Q 5 1
     = Ok [5; 4; 3; 2; 1]%Q.
Proof.
  split; [| vm_compute; reflexivity].
  intros rewards max_steps gamma T HT Hmax.
  rewrite calculate_discounted_returns_eq.
  destruct (Z.ltb_spec max_steps 0) as [Hneg|_]; [lia|].
  eexists. split; [reflexivity|]. cbn [items].
  rewrite take_ge by (rewrite length_discounted; fold T; lia).
  split; [apply length_discounted|]. split.
  - rewrite nth_discounted by (fold T; lia).
    replace (S (T - 1)) with (length (discounted gamma rewards))
      by (rewrite length_discounted; fold T; lia).
    rewrite (nth_overflow (discounted gamma rewards)) by lia. ring.
  - intros t Ht. rewrite nth_discounted by (fold T; lia).
    replace (t + 1)%nat with (S t) by lia. reflexivity.
Qed.

(** The recursion on three rewards with [gamma = 0.99]. *)
Lemma discounted_returns_recursion_witness :
  (1 <= length [3; -1; 2]%Q)%nat /\
  (Z.of_nat (length [3; -1; 2]%Q) <= 1000)%Z /\
  exists returns : deque Q,
    calculate_discounted_returns [3; -1; 2]%Q 1000 (99 # 100) = Ok returns /\
    length (items returns) = 3%nat /\
    (nth 2 (items returns) 0 == 2)%Q /\
    forall t : nat,
      (t < 2)%nat ->
      (nth t (items returns) 0
       == nth t [3; -1; 2] 0 + (99 # 100) * nth (t + 1) (items returns) 0)%Q.
Proof.
  split; [cbn; lia|]. split; [cbn; lia|].
  apply (proj1 discounted_returns_recursion [3; -1; 2]%Q 1000%Z (99 # 100)%Q);
    cbn; lia.
Defined.

(** C2, as stated, fails: three rewards with [max_steps = 2] give two
    returns. *)
Lemma returns_length_counterexample :
  exists returns : deque Q,
    calculate_discounted_returns [1; 2; 3]%Q 2 (1 # 2) = Ok returns /\
    length (items returns) = 2%nat /\
    length (items returns) <> length [1; 2; 3]%Q.
Proof.
  eexists. split; [vm_compute; reflexivity|]. split; [reflexivity|].
  cbn. lia.
Qed.

(** C2, amended. For a reward sequence of length [T] and [max_steps >= 0]
    the Return Calculator returns the first [max_steps] discounted returns,
    a sequence of length [min(T, max_steps)], which is [T] whenever
    [T <= max_steps]; a negative [max_steps] raises [ValueError]. *)
Theorem returns_length_bounded (rewards : list Q) (max_steps : Z) (gamma : Q) :
  ((0 <= max_steps)%Z ->
   exists returns : deque Q,
     calculate_discounted_returns rewards max_steps gamma = Ok returns /\
     items returns = take (Z.to_nat max_steps) (discounted gamma rewards) /\
     length (items returns) = (length rewards `min` Z.to_nat max_steps)%nat /\
     ((Z.of_nat (length rewards) <= max_steps)%Z ->
      length (items returns) = length rewards))
  /\ ((max_steps < 0)%Z ->
      calculate_discounted_returns rewards max_steps gamma = Raise ValueError).
Proof.
  rewrite calculate_discounted_returns_eq.
  destruct (Z.ltb_spec max_steps 0) as [Hneg|Hpos]; split; intros H;
    try lia; try reflexivity.
  eexists. split; [reflexivity|]. cbn [items]. split; [reflexivity|].
  rewrite length_take, length_discounted. split; [lia|]. intros Hle. lia.
Qed.

(** Three rewards with [max_steps = 2], and with [max_steps = -1]. *)
Lemma returns_length_bounded_witness :
  ((0 <= 2)%Z /\
   exists returns : deque Q,
     calculate_discounted_returns [1; 2; 3]%Q 2 (1 # 2) = Ok returns /\
     items returns = take (Z.to_nat 2) (discounted (1 # 2) [1; 2; 3]%Q) /\
     length (items returns) = (length [1; 2; 3]%Q `min` Z.to_nat 2)%nat /\
     ((Z.of_nat (length [1; 2; 3]%Q) <= 2)%Z ->
      length (items returns) = length [1; 2; 3]%Q))
  /\ ((-1 < 0)%Z /\
      calculate_discounted_returns [1; 2; 3]%Q (-1) (1 # 2) = Raise ValueError).
Proof.
  split; (split; [lia|]).
  - apply (proj1 (returns_length_bounded [1; 2; 3]%Q 2%Z (1 # 2)%Q)). lia.
  - apply (proj2 (returns_length_bounded [1; 2; 3]%Q (-1)%Z (1 # 2)%Q)). lia.
Defined.

End ReturnCalculator.

(** ** Return Standardizer *)

Section Standardizer.
Local Open Scope R_scope.

Lemma eps_pos : 0 < eps.
Proof. unfold eps. apply Rinv_0_lt_compat, pow_lt. lra. Qed.

Lemma rsum_nil : rsum [] = 0.
Proof. reflexivity. Qed.

Lemma rsum_cons (x : R) (l : list R) : rsum (x :: l) = x + rsum l.
Proof. reflexivity. Qed.

Lemma fold_tv_add_Fin (l : list R) (a : R) :
  fold_left tv_add (map Fin l) (Fin a) = Fin (a + rsum l).
Proof.
  revert a. induction l as [|x l IH]; intros a; cbn [map fold_left].
  - rewrite rsum_nil. f_equal. lra.
  - unfold tv_add at 2. cbn [tv_lift2]. rewrite IH, rsum_cons. f_equal. lra.
Qed.

Lemma tv_sum_Fin (l : list R) : tv_sum (map Fin l) = Fin (rsum l).
Proof. unfold tv_sum. rewrite fold_tv_add_Fin. f_equal. lra. Qed.

Lemma torch_mean_Fin (l : list R) :
  (1 <= length l)%nat -> torch_mean (map Fin l) = Fin (rmean l).
Proof.
  intros Hl. unfold torch_mean. rewrite tv_sum_Fin, length_map. cbn.
  destruct (Req_dec_T (INR (length l)) 0) as [E|_]; [|reflexivity].
  exfalso. apply (not_0_INR (length l)); [lia | exact E].
Qed.

Lemma rsum_sq_nonneg (l : list R) (m : R) :
  0 <= rsum (map (fun x => (x - m) * (x - m)) l).
Proof.
  induction l as [|x l IH]; cbn [map]; [rewrite rsum_nil; lra|].
  rewrite rsum_cons. pose proof (Rle_0_sqr (x - m)) as H.
  unfold Rsqr in H. lra.
Qed.

Lemma torch_std_Fin (l : list R) :
  (2 <= length l)%nat -> torch_std (map Fin l) = Fin (rstd l).
Proof.
  intros Hl. unfold torch_std. rewrite torch_mean_Fin by lia.
  rewrite map_map. cbn.
  change (map (fun x => Fin ((x - rmean l) * (x - rmean l))) l)
    with (map (fun x => Fin ((fun y => (y - rmean l) * (y - rmean l)) x)) l).
  rewrite <- (map_map (fun y => (y - rmean l) * (y - rmean l)) Fin).
  rewrite tv_sum_Fin, length_map. cbn.
  assert (0 < INR (length l - 1)) as Hpos by (apply lt_0_INR; lia).
  destruct (Req_dec_T (INR (length l - 1)) 0) as [E|_]; [lra|].
  cbn. destruct (Rlt_dec _ 0) as [Hneg|_]; [|reflexivity].
  exfalso. pose proof (rsum_sq_nonneg l (rmean l)) as Hs.
  apply (Rlt_not_le _ _ Hneg). apply Rmult_le_pos; [exact Hs|].
  apply Rlt_le, Rinv_0_lt_compat, Hpos.
Qed.

Lemma rstd_nonneg (l : list R) : 0 <= rstd l.
Proof. apply sqrt_pos. Qed.

(** On two or more returns every division has a non-zero divisor and the
    result is finite. *)
Lemma standardise_returns_data (returns : deque Q) :
  let l := map Q2R (items returns) in
  (2 <= length (items returns))%nat ->
  t_data (standardise_returns returns)
  = map (fun x => Fin ((x - rmean l) / (rstd l + eps))) l.
Proof.
  intros l Hl. unfold standardise_returns, torch_tensor. cbn [t_data].
  rewrite <- (map_map Q2R Fin). fold l.
  assert (2 <= length l)%nat as Hl' by (unfold l; rewrite length_map; lia).
  rewrite torch_mean_Fin by lia. rewrite torch_std_Fin by lia.
  rewrite map_map. apply map_ext. intros x. cbn.
  pose proof (rstd_nonneg l). pose proof eps_pos.
  destruct (Req_dec_T (rstd l + eps) 0) as [E|_]; [lra | reflexivity].
Qed.

Lemma rsum_map_scale (c : R) (f : R -> R) (l : list R) :
  rsum (map (fun x => c * f x) l) = c * rsum (map f l).
Proof.
  induction l as [|x l IH]; cbn [map]; rewrite ?rsum_nil, ?rsum_cons; [lra|].
  rewrite IH. lra.
Qed.

Lemma rsum_map_sub (m : R) (l : list R) :
  rsum (map (fun x => x - m) l) = rsum l - INR (length l) * m.
Proof.
  induction l as [|x l IH]; cbn [map length].
  - rewrite !rsum_nil. cbn [INR]. lra.
  - rewrite !rsum_cons, IH, S_INR. lra.
Qed.

Lemma rsum_centred (l : list R) :
  (1 <= length l)%nat -> rsum (map (fun x => x - rmean l) l) = 0.
Proof.
  intros Hl. rewrite rsum_map_sub. unfold rmean.
  assert (INR (length l) <> 0) by (apply not_0_INR; lia). field. assumption.
Qed.

Lemma rsum_sq_zero (m : R) (l : list R) :
  rsum (map (fun x => (x - m) * (x - m)) l) = 0 -> Forall (fun x => x = m) l.
Proof.
  induction l as [|x l IH]; cbn [map]; [constructor|].
  rewrite rsum_cons. intros H.
  pose proof (rsum_sq_nonneg l m) as Hl.
  pose proof (Rle_0_sqr (x - m)) as Hx. unfold Rsqr in Hx.
  constructor.
  - assert ((x - m) * (x - m) = 0) as E by lra.
    apply Rmult_integral in E. lra.
  - apply IH. lra.
Qed.

(** The mean and the standard deviation of a centred and scaled list. *)
Lemma rmean_scaled (l : list R) (d : R) :
  (1 <= length l)%nat -> d <> 0 ->
  rmean (map (fun x => (x - rmean l) / d) l) = 0.
Proof.
  intros Hl Hd. unfold rmean at 1. rewrite length_map.
  replace (map (fun x => (x - rmean l) / d) l)
    with (map (fun x => / d * (fun y => y - rmean l) x) l)
    by (apply map_ext; intros; unfold Rdiv; lra).
  rewrite rsum_map_scale, rsum_centred by lia.
  unfold Rdiv. lra.
Qed.

Lemma rstd_scaled (l : list R) (d : R) :
  (2 <= length l)%nat -> 0 < d ->
  rstd (map (fun x => (x - rmean l) / d) l) = rstd l / d.
Proof.
  intros Hl Hd. unfold rstd at 1.
  rewrite rmean_scaled by (lia || lra). rewrite map_map, length_map.
  replace (map (fun x => ((x - rmean l) / d - 0) * ((x - rmean l) / d - 0)) l)
    with (map (fun x => (/ d * / d)
                        * (fun y => (y - rmean l) * (y - rmean l)) x) l)
    by (apply map_ext; intros; unfold Rdiv; lra).
  rewrite rsum_map_scale.
  set (S := rsum (map (fun y => (y - rmean l) * (y - rmean l)) l)).
  assert (0 <= S) as HS by apply rsum_sq_nonneg.
  assert (0 < INR (length l - 1)) as Hn by (apply lt_0_INR; lia).
  assert (0 < / d) as Hid by (apply Rinv_0_lt_compat; exact Hd).
  replace (/ d * / d * S / INR (length l - 1))
    with ((S / INR (length l - 1)) * (/ d * / d)) by (unfold Rdiv; lra).
  rewrite sqrt_mult.
  - rewrite sqrt_square by lra. reflexivity.
  - apply Rmult_le_pos; [exact HS|]. apply Rlt_le, Rinv_0_lt_compat, Hn.
  - apply Rlt_le, Rmult_lt_0_compat; exact Hid.
Qed.

Lemma rstd_pos (l : list R) :
  (2 <= length l)%nat ->
  ~ Forall (fun x => x = rmean l) l ->
  0 < rstd l.
Proof.
  intros Hl Hnc. unfold rstd. apply sqrt_lt_R0.
  assert (0 < INR (length l - 1)) as Hn by (apply lt_0_INR; lia).
  pose proof (rsum_sq_nonneg l (rmean l)) as HS.
  apply Rdiv_lt_0_compat; [|exact Hn].
  destruct HS as [Hlt|Heq]; [exact Hlt|].
  exfalso. apply Hnc. apply rsum_sq_zero. symmetry. exact Heq.
Qed.

Lemma rsum_constant (v : R) (l : list R) :
  Forall (fun x => x = v) l -> rsum l = INR (length l) * v.
Proof.
  induction 1 as [|x l Hx _ IH]; cbn [length].
  - rewrite rsum_nil. cbn [INR]. lra.
  - rewrite rsum_cons, IH, S_INR, Hx. lra.
Qed.

Lemma rmean_constant (v : R) (l : list R) :
  (1 <= length l)%nat -> Forall (fun x => x = v) l -> rmean l = v.
Proof.
  intros Hl Hc. unfold rmean. rewrite (rsum_constant v l Hc).
  assert (INR (length l) <> 0) by (apply not_0_INR; lia). field. assumption.
Qed.

Lemma rstd_constant (v : R) (l : list R) :
  (1 <= length l)%nat -> Forall (fun x => x = v) l -> rstd l = 0.
Proof.
  intros Hl Hc. unfold rstd. rewrite (rmean_constant v l Hl Hc).
  replace (map (fun x => (x - v) * (x - v)) l)
    with (map (fun x => 0 * (fun _ => 0) x) l).
  - rewrite rsum_map_scale. unfold Rdiv. rewrite !Rmult_0_l. apply sqrt_0.
  - apply map_ext_Forall.
    eapply Forall_impl; [exact Hc|]. cbn beta. intros x ->. lra.
Qed.

Lemma Forall_Q2R_constant (v : Q) (l : list Q) :
  Forall (fun x => (x == v)%Q) l -> Forall (fun x => x = Q2R v) (map Q2R l).
Proof.
  intros H. apply Forall_map. eapply Forall_impl; [exact H|].
  intros x Hx. cbn. apply Qeq_eqR, Hx.
Qed.

Lemma nonconstant_spread (l : list Q) :
  ~ constant_seq l ->
  ~ Forall (fun x => x = rmean (map Q2R l)) (map Q2R l).
Proof.
  intros Hnc Hall. apply Hnc. destruct l as [|v l]; [exists 0%Q; constructor|].
  exists v. apply Forall_map in Hall.
  pose proof (Forall_inv Hall) as Hv. cbn beta in Hv.
  eapply Forall_impl; [exact Hall|]. intros x Hx. apply eqR_Qeq.
  cbn beta in Hx. congruence.
Qed.

(** The statistics of the standardised sequence, for two or more returns. *)
Lemma standardise_returns_stats (returns : deque Q) :
  let l := map Q2R (items returns) in
  let out := t_data (standardise_returns returns) in
  (2 <= length (items returns))%nat ->
  torch_mean out = Fin 0 /\
  torch_std out = Fin (rstd l / (rstd l + eps)).
Proof.
  intros l out Hl. unfold out. rewrite standardise_returns_data by exact Hl.
  fold l. assert (2 <= length l)%nat as Hl'
    by (unfold l; rewrite length_map; lia).
  pose proof (rstd_nonneg l) as Hs. pose proof eps_pos as He.
  change (map (fun x => Fin ((x - rmean l) / (rstd l + eps))) l)
    with (map (fun x => Fin ((fun y => (y - rmean l) / (rstd l + eps)) x)) l).
  rewrite <- (map_map (fun y => (y - rmean l) / (rstd l + eps)) Fin).
  split.
  - rewrite torch_mean_Fin by (rewrite length_map; lia).
    rewrite rmean_scaled by (lia || lra). reflexivity.
  - rewrite torch_std_Fin by (rewrite length_map; lia).
    rewrite rstd_scaled by (lia || lra). reflexivity.
Qed.



(** C9. On a single return the Bessel-corrected standard deviation divides
    by [1 - 1 = 0] and is not a finite number, and neither is the only
    entry of the output. *)
Theorem standardise_single_nan (maxlen : nat) (x : Q) :
  let returns := Deque.mk maxlen [x] in
  torch_std (map (fun q => Fin (Q2R q)) (items returns)) = NaN /\
  t_data (standardise_returns returns) = [NaN] /\
  Forall (fun y => is_finite y = false) (t_data (standardise_returns returns)).
Proof.
  assert (torch_std [Fin (Q2R x)] = NaN) as Hstd.
  { change [Fin (Q2R x)] with (map Fin [Q2R x]). unfold torch_std.
    rewrite torch_mean_Fin by (cbn; lia).
    cbn [map length Nat.sub INR]. unfold tv_sub, tv_mul, tv_sum.
    cbn [tv_lift2 fold_left]. unfold tv_add. cbn [tv_lift2]. unfold tv_div.
    destruct (Req_dec_T 0 0) as [_|N]; [reflexivity | lra]. }
  cbn zeta. unfold standardise_returns, torch_tensor.
  cbn [items map t_data]. rewrite Hstd.
  split; [reflexivity|].
  assert (forall a, tv_div a (tv_add NaN (Fin eps)) = NaN) as Hdiv
    by (intros [?|]; reflexivity).
  rewrite Hdiv. split; [reflexivity|]. repeat constructor.
Qed.




End Standardizer.

(** ** Trajectory Generator *)

Section TrajectoryGenerator.
Context `{Sim : Simulator} `{TL : TensorLib} `{Net : !Networks}.

Lemma length_done_flags policy vf steps state (w : World) :
  length (done_flags policy vf steps state w) = steps.
Proof.
  revert state w. induction steps as [|n IH]; intros state w; [reflexivity|].
  cbn [done_flags].
  destruct (trajectory_step policy vf state w) as [[[[[lp r] v] next] done] w'].
  cbn [length]. rewrite IH. reflexivity.
Qed.

Lemma trajectory_loop_lengths policy vf steps :
  forall state log_probs rewards state_values (w : World),
    let k := steps_until_done (done_flags policy vf steps state w) in
    let res := trajectory_loop policy vf steps state
                 log_probs rewards state_values w in
    length res.1.1.1 = (length log_probs + k)%nat /\
    length res.1.1.2 = (length rewards + k)%nat /\
    length res.1.2 = (length state_values + k)%nat.
Proof.
  induction steps as [|n IH]; intros state lps rs vs w.
  - cbn. lia.
  - cbn [trajectory_loop done_flags].
    destruct (trajectory_step policy vf state w) as [[[[[lp r] v] next] done] w'].
    destruct done.
    + cbn. rewrite !length_app. cbn. lia.
    + cbn [steps_until_done]. cbn zeta.
      specialize (IH next (lps ++ [lp]) (rs ++ [r]) (vs ++ [v]) w').
      cbn zeta in IH. rewrite !length_app in IH. cbn [length] in IH.
      destruct IH as (H1 & H2 & H3). rewrite H1, H2, H3. lia.
Qed.

Lemma steps_until_done_first (flags : list bool) (k : nat) :
  flags !! k = Some true ->
  (forall j, (j < k)%nat -> flags !! j = Some false) ->
  steps_until_done flags = S k.
Proof.
  revert k. induction flags as [|d flags IH]; intros k Hk Hbefore; [done|].
  destruct k as [|k].
  - cbn in Hk. injection Hk as ->. reflexivity.
  - pose proof (Hbefore O ltac:(lia)) as H0. cbn in H0. injection H0 as ->.
    cbn [steps_until_done]. f_equal. apply IH; [exact Hk|].
    intros j Hj. apply (Hbefore (S j)). lia.
Qed.

Lemma steps_until_done_none (flags : list bool) :
  Forall (fun d => d = false) flags -> steps_until_done flags = length flags.
Proof.
  induction 1 as [|d flags Hd _ IH]; [reflexivity|].
  subst d. cbn. rewrite IH. reflexivity.
Qed.

Lemma steps_until_done_bounds (flags : list bool) :
  (1 <= length flags)%nat ->
  (1 <= steps_until_done flags <= length flags)%nat.
Proof.
  induction flags as [|d flags IH]; cbn [length]; [lia|]. intros _.
  cbn [steps_until_done]. destruct d; [lia|].
  destruct flags as [|d' flags']; [cbn; lia|].
  specialize (IH ltac:(cbn; lia)). cbn [length] in *. lia.
Qed.

Lemma generate_trajectory_lengths policy vf max_steps (w : World) :
  let k := steps_until_done (episode_flags policy vf max_steps w) in
  let res := generate_trajectory policy vf max_steps w in
  length res.1.1.1 = k /\ length res.1.1.2 = k /\ length res.1.2 = k.
Proof.
  unfold generate_trajectory, episode_flags.
  destruct (env_reset (w_env w)) as [state env].
  apply (trajectory_loop_lengths policy vf (Z.to_nat max_steps) state [] [] []).
Qed.

Lemma length_episode_flags policy vf max_steps (w : World) :
  length (episode_flags policy vf max_steps w) = Z.to_nat max_steps.
Proof.
  unfold episode_flags. destruct (env_reset (w_env w)) as [state env].
  apply length_done_flags.
Qed.

(** C5. With [max_steps >= 1], the trajectory ends with the first step on
    which the environment reports termination (step [k], counted from 0,
    gives [k + 1] records), has [max_steps] records when no step does, and
    one record when the very first step does. *)
Theorem trajectory_stops_at_termination policy vf max_steps (w : World) :
  let flags := episode_flags policy vf max_steps w in
  let rewards := (generate_trajectory policy vf max_steps w).1.1.2 in
  (1 <= max_steps)%Z ->
  (forall k : nat,
      flags !! k = Some true ->
      (forall j : nat, (j < k)%nat -> flags !! j = Some false) ->
      length rewards = S k) /\
  (Forall (fun d => d = false) flags ->
   length rewards = Z.to_nat max_steps) /\
  (flags !! 0%nat = Some true -> length rewards = 1%nat).
Proof.
  intros flags rewards _.
  destruct (generate_trajectory_lengths policy vf max_steps w) as (_ & Hr & _).
  fold rewards in Hr. fold flags in Hr. rewrite Hr. split; [|split].
  - intros k Hk Hbefore. apply steps_until_done_first; assumption.
  - intros Hnone. rewrite steps_until_done_none by exact Hnone.
    apply length_episode_flags.
  - intros H0. apply steps_until_done_first; [exact H0|]. intros j Hj. lia.
Qed.


(** C10. With [max_steps >= 1], the three sequences the Trajectory
    Generator returns have one common length [L] with
    [1 <= L <= max_steps]. *)
Theorem trajectory_lengths_agree policy vf max_steps (w : World) :
  let res := generate_trajectory policy vf max_steps w in
  (1 <= max_steps)%Z ->
  exists L : nat,
    length res.1.1.1 = L /\
    length res.1.1.2 = L /\
    length res.1.2 = L /\
    (1 <= L)%nat /\ (Z.of_nat L <= max_steps)%Z.
Proof.
  intros res Hmax.
  destruct (generate_trajectory_lengths policy vf max_steps w) as (H1 & H2 & H3).
  exists (steps_until_done (episode_flags policy vf max_steps w)).
  repeat split; try assumption.
  - apply steps_until_done_bounds. rewrite length_episode_flags. lia.
  - pose proof (steps_until_done_bounds (episode_flags policy vf max_steps w))
      as Hb. rewrite length_episode_flags in Hb. lia.
Qed.

End TrajectoryGenerator.

(** The stub terminates on its third step: with [max_steps = 10] the
    trajectory has three records. *)
Lemma trajectory_stops_at_termination_witness :
  let r := fun _ _ : nat => 1%Q in
  let w := stub_world 3 r in
  let N := stub_networks 3 r in
  (1 <= 10)%Z /\
  @episode_flags _ _ N stub_policy stub_value 10 w !! 2%nat = Some true /\
  length (@generate_trajectory _ _ N stub_policy stub_value 10 w).1.1.2
  = 3%nat.
Proof.
  intros r w N. split; [lia|]. split; [reflexivity|].
  apply (proj1 (@trajectory_stops_at_termination _ _ N stub_policy stub_value
                  10%Z w ltac:(lia)) 2%nat).
  - reflexivity.
  - intros [|[|j]] Hj; [reflexivity | reflexivity | lia].
Defined.

(** The same stub cut off by [max_steps = 2]. *)
Lemma trajectory_lengths_agree_witness :
  let r := fun _ _ : nat => 1%Q in
  let res := @generate_trajectory _ _ (stub_networks 3 r)
               stub_policy stub_value 2 (stub_world 3 r) in
  (1 <= 2)%Z /\
  exists L : nat,
    length res.1.1.1 = L /\
    length res.1.1.2 = L /\
    length res.1.2 = L /\
    (1 <= L)%nat /\ (Z.of_nat L <= 2)%Z.
Proof.
  intros r res. split; [lia|].
  apply (@trajectory_lengths_agree _ _ (stub_networks 3 r)
           stub_policy stub_value 2%Z (stub_world 3 r)). lia.
Defined.

(** ** Advantage and optimisation step *)

Section Optimisation.
Context `{Sim : Simulator} `{TL : TensorLib} `{Net : !Networks}.

(** The contents of a parameter, without its gradient buffer. *)
Abbreviation data_of w id := (p_data <$> (w_store w !! id)).

Lemma alter_grad_data (f : PEntry -> option PData)
    (store : gmap ParamId PEntry) (i id : ParamId) :
  p_data <$> (alter (fun e => mkP (p_data e) (f e)) i store !! id)
  = p_data <$> (store !! id).
Proof.
  destruct (decide (i = id)) as [->|Hne].
  - rewrite lookup_alter_eq. destruct (store !! id); reflexivity.
  - rewrite lookup_alter_ne by exact Hne. reflexivity.
Qed.

Lemma foldl_alter_grad_data (F : ParamId -> PEntry -> option PData)
    (l : list ParamId) (store : gmap ParamId PEntry) (id : ParamId) :
  p_data <$> (foldl (fun s i => alter (fun e => mkP (p_data e) (F i e)) i s)
                    store l !! id)
  = p_data <$> (store !! id).
Proof.
  revert store. induction l as [|i l IH]; intros store; cbn [foldl];
    [reflexivity|].
  rewrite IH. apply alter_grad_data.
Qed.

Lemma zero_grad_data (opt : Optimizer) (w : World) (id : ParamId) :
  data_of (zero_grad opt w) id = data_of w id.
Proof.
  unfold zero_grad. cbn [w_store set_store].
  apply (foldl_alter_grad_data (fun _ _ => None)).
Qed.

Lemma backward_data (loss : Tensor) (w w' : World) (id : ParamId) :
  backward loss w = Ok w' -> data_of w' id = data_of w id.
Proof.
  unfold backward. destruct (decide (t_leaves loss = ∅)); [discriminate|].
  intros [= <-]. cbn [w_store set_store].
  apply (foldl_alter_grad_data
           (fun i e => Some match p_grad e with
                            | None => autograd loss i (w_store w)
                            | Some g0 => pd_add g0 (autograd loss i (w_store w))
                            end)).
Qed.

Lemma step_param_other (acc : gmap ParamId PEntry * OptState)
    (i id : ParamId) :
  i <> id -> (step_param acc i).1 !! id = acc.1 !! id.
Proof.
  intros Hne. destruct acc as [store st]. unfold step_param.
  destruct (store !! i) as [[d [g|]]|]; try reflexivity.
  destruct (adam_update st i d g) as [st' d']. cbn [fst].
  apply lookup_insert_ne, Hne.
Qed.

Lemma step_other (opt : Optimizer) (w : World) (id : ParamId) :
  id ∉ param_group opt -> w_store (step opt w) !! id = w_store w !! id.
Proof.
  intros Hid. unfold step.
  set (st0 := default opt_init (w_opt w !! opt_id opt)).
  assert (forall l acc, id ∉ l -> (foldl step_param acc l).1 !! id = acc.1 !! id)
    as Hfold.
  { induction l as [|i l IH]; intros acc Hl; cbn [foldl]; [reflexivity|].
    rewrite IH by set_solver. apply step_param_other. set_solver. }
  specialize (Hfold (param_group opt) (w_store w, st0) Hid).
  destruct (foldl step_param (w_store w, st0) (param_group opt)) as [store st].
  cbn [fst] in Hfold. cbn [set_opt set_store w_store]. exact Hfold.
Qed.

(** Each of the two functions leaves the contents of every parameter
    outside its optimizer's group as they were. *)
Lemma optimise_value_function_frame (value_optimizer : Optimizer)
    (returns : Tensor) (state_values : list Tensor) (w w' : World)
    (id : ParamId) :
  optimise_value_function value_optimizer returns state_values w = Ok w' ->
  id ∉ param_group value_optimizer ->
  data_of w' id = data_of w id.
Proof.
  unfold optimise_value_function. intros Hrun Hid.
  destruct (torch_stack state_values) as [sv|]; [|discriminate].
  cbn in Hrun.
  destruct (mse_loss (squeeze sv) returns) as [loss|]; [|discriminate].
  cbn in Hrun.
  destruct (backward loss (zero_grad value_optimizer w)) as [w1|] eqn:Hb;
    [|discriminate].
  cbn in Hrun. injection Hrun as <-.
  rewrite (step_other _ _ _ Hid), (backward_data _ _ _ _ Hb).
  apply zero_grad_data.
Qed.

Lemma optimise_policy_frame (policy_optimizer : Optimizer)
    (log_probs : list Tensor) (returns : Tensor) (state_values : list Tensor)
    (w w' : World) (id : ParamId) :
  optimise_policy policy_optimizer log_probs returns state_values w = Ok w' ->
  id ∉ param_group policy_optimizer ->
  data_of w' id = data_of w id.
Proof.
  unfold optimise_policy. intros Hrun Hid.
  destruct (torch_stack state_values) as [sv|]; [|discriminate].
  cbn in Hrun.
  destruct (broadcast2 tv_sub returns (detach (squeeze sv))) as [adv|];
    [|discriminate].
  cbn in Hrun.
  destruct (mapM _ _) as [losses|]; [|discriminate]. cbn in Hrun.
  destruct (torch_cat losses) as [loss|]; [|discriminate]. cbn in Hrun.
  destruct (backward (t_sum loss) (zero_grad policy_optimizer w)) as [w1|] eqn:Hb;
    [|discriminate].
  cbn in Hrun. injection Hrun as <-.
  rewrite (step_other _ _ _ Hid), (backward_data _ _ _ _ Hb).
  apply zero_grad_data.
Qed.

(** *** Where gradients flow

    Beyond the contents: an entry of the store (contents and gradient
    buffer) outside both the optimizer's group and the leaves of the loss is
    left as it was. *)

Lemma foldl_alter_other {A} (F : ParamId -> A -> A) (l : list ParamId)
    (store : gmap ParamId A) (id : ParamId) :
  id ∉ l ->
  foldl (fun s i => alter (F i) i s) store l !! id = store !! id.
Proof.
  revert store. induction l as [|i l IH]; intros store Hid; cbn [foldl];
    [reflexivity|].
  rewrite IH by set_solver. apply lookup_alter_ne. set_solver.
Qed.

Lemma zero_grad_other (opt : Optimizer) (w : World) (id : ParamId) :
  id ∉ param_group opt -> w_store (zero_grad opt w) !! id = w_store w !! id.
Proof.
  intros Hid. unfold zero_grad. cbn [w_store set_store].
  apply (foldl_alter_other (fun _ e => mkP (p_data e) None)), Hid.
Qed.

Lemma backward_other (loss : Tensor) (w w' : World) (id : ParamId) :
  backward loss w = Ok w' ->
  id ∉ t_leaves loss ->
  w_store w' !! id = w_store w !! id.
Proof.
  unfold backward. destruct (decide (t_leaves loss = ∅)); [discriminate|].
  intros [= <-] Hid. cbn [w_store set_store].
  apply (foldl_alter_other
           (fun i e => mkP (p_data e)
                           (Some match p_grad e with
                                 | None => autograd loss i (w_store w)
                                 | Some g0 =>
                                     pd_add g0 (autograd loss i (w_store w))
                                 end))).
  rewrite elem_of_elements. exact Hid.
Qed.

Lemma torch_stack_leaves (ts : list Tensor) (t : Tensor) :
  torch_stack ts = Ok t -> t_leaves t = ⋃ (map t_leaves ts).
Proof. destruct ts; [discriminate|]. intros [= <-]. reflexivity. Qed.

Lemma torch_cat_leaves (ts : list Tensor) (t : Tensor) :
  torch_cat ts = Ok t -> t_leaves t = ⋃ (map t_leaves ts).
Proof. destruct ts; [discriminate|]. intros [= <-]. reflexivity. Qed.

Lemma broadcast2_leaves (f : tval -> tval -> tval) (a b t : Tensor) :
  broadcast2 f a b = Ok t -> t_leaves t = t_leaves a ∪ t_leaves b.
Proof.
  unfold broadcast2.
  destruct (t_data a) as [|x [|x' xs]], (t_data b) as [|y [|y' ys]];
    try (intros [= <-]; reflexivity);
    destruct (_ =? _)%nat; try discriminate; intros [= <-]; reflexivity.
Qed.

Lemma union_list_subseteq (sets : list (gset ParamId)) (P : gset ParamId) :
  Forall (fun X => X ⊆ P) sets -> ⋃ sets ⊆ P.
Proof.
  induction 1 as [|X sets HX _ IH]; cbn; [apply empty_subseteq|].
  apply union_least; assumption.
Qed.

Lemma policy_losses_leaves (P : gset ParamId) (log_probs advantages : list Tensor) :
  forall losses,
    mapM (fun '(log_prob, advantage) =>
            broadcast2 tv_mul (t_neg log_prob) advantage)
         (zip log_probs advantages) = Ok losses ->
    Forall (fun lp => t_leaves lp ⊆ P) log_probs ->
    Forall (fun adv => t_leaves adv = ∅) advantages ->
    Forall (fun X => X ⊆ P) (map t_leaves losses).
Proof.
  revert advantages.
  induction log_probs as [|lp lps IH]; intros [|adv advs] losses Hrun Hlp Hadv;
    cbn in Hrun; try (injection Hrun as <-; constructor).
  destruct (broadcast2 tv_mul (t_neg lp) adv) as [l|] eqn:Hl; [|discriminate].
  cbn in Hrun. destruct (mapM _ (zip lps advs)) as [ls|] eqn:Hls;
    [|discriminate].
  cbn in Hrun. injection Hrun as <-.
  apply Forall_cons in Hlp as [Hlp Hlps]. apply Forall_cons in Hadv as [Hadv Hadvs].
  cbn [map]. constructor; [|exact (IH advs ls Hls Hlps Hadvs)].
  rewrite (broadcast2_leaves _ _ _ _ Hl), Hadv. cbn [t_neg t_leaves].
  apply union_least; [exact Hlp | apply empty_subseteq].
Qed.

(** The actor's step reaches no gradient buffer outside the leaves of the
    log-probabilities: the value estimates enter the loss detached. *)
Lemma optimise_policy_entries (P : gset ParamId) (policy_optimizer : Optimizer)
    (log_probs : list Tensor) (returns : Tensor) (state_values : list Tensor)
    (w w' : World) (id : ParamId) :
  optimise_policy policy_optimizer log_probs returns state_values w = Ok w' ->
  Forall (fun lp => t_leaves lp ⊆ P) log_probs ->
  id ∉ P ->
  id ∉ param_group policy_optimizer ->
  w_store w' !! id = w_store w !! id.
Proof.
  unfold optimise_policy. intros Hrun Hlp HP Hid.
  destruct (torch_stack state_values) as [sv|]; [|discriminate].
  cbn in Hrun.
  destruct (broadcast2 tv_sub returns (detach (squeeze sv))) as [adv|];
    [|discriminate].
  cbn in Hrun.
  destruct (mapM _ _) as [losses|] eqn:Hlosses; [|discriminate]. cbn in Hrun.
  destruct (torch_cat losses) as [loss|] eqn:Hcat; [|discriminate].
  cbn in Hrun.
  destruct (backward (t_sum loss) (zero_grad policy_optimizer w)) as [w1|] eqn:Hb;
    [|discriminate].
  cbn in Hrun. injection Hrun as <-.
  rewrite (step_other _ _ _ Hid). rewrite (backward_other _ _ _ _ Hb).
  - apply zero_grad_other, Hid.
  - cbn [t_sum t_leaves]. rewrite (torch_cat_leaves _ _ Hcat).
    assert (⋃ map t_leaves losses ⊆ P) as Hsub;
      [|intros Hin; exact (HP (Hsub _ Hin))].
    apply union_list_subseteq.
    eapply policy_losses_leaves; [exact Hlosses | exact Hlp |].
    unfold iter_tensor, torch_tensor. apply Forall_map. cbn.
    apply Forall_true. reflexivity.
Qed.

(** The critic's step reaches no gradient buffer outside the leaves of the
    value estimates and of the returns. *)
Lemma optimise_value_function_entries (P : gset ParamId)
    (value_optimizer : Optimizer) (returns : Tensor)
    (state_values : list Tensor) (w w' : World) (id : ParamId) :
  optimise_value_function value_optimizer returns state_values w = Ok w' ->
  Forall (fun v => t_leaves v ⊆ P) state_values ->
  t_leaves returns ⊆ P ->
  id ∉ P ->
  id ∉ param_group value_optimizer ->
  w_store w' !! id = w_store w !! id.
Proof.
  unfold optimise_value_function, mse_loss. intros Hrun Hsv Hret HP Hid.
  destruct (torch_stack state_values) as [sv|] eqn:Hstack; [|discriminate].
  cbn in Hrun.
  destruct (broadcast2 tv_sub (squeeze sv) returns) as [d|] eqn:Hd;
    [|discriminate].
  cbn in Hrun.
  destruct (backward _ (zero_grad value_optimizer w)) as [w1|] eqn:Hb;
    [|discriminate].
  cbn in Hrun. injection Hrun as <-.
  rewrite (step_other _ _ _ Hid). rewrite (backward_other _ _ _ _ Hb).
  - apply zero_grad_other, Hid.
  - cbn [t_leaves]. rewrite (broadcast2_leaves _ _ _ _ Hd).
    unfold squeeze. rewrite (torch_stack_leaves _ _ Hstack).
    assert (⋃ map t_leaves state_values ⊆ P) as Hsub.
    { apply union_list_subseteq, Forall_map. exact Hsv. }
    intros [Hin|Hin]%elem_of_union; [exact (HP (Hsub _ Hin)) | exact (HP (Hret _ Hin))].
Qed.

(** C7. With each optimizer built on the parameters of its own module and
    the two modules sharing no parameter, the critic's step changes the
    contents of no parameter outside the value module, so of none of the
    policy module, and the actor's step changes the contents of no parameter
    outside the policy module, so of none of the value module.  When the
    value estimates come from the value module, the log-probabilities from
    the policy module and the returns carry no graph, as in the training
    loop, the gradient buffers of the other module are left alone as well. *)
Theorem optimisers_no_cross_talk (policy value_function : Module)
    (policy_optimizer value_optimizer : Optimizer)
    (log_probs : list Tensor) (returns : Tensor) (state_values : list Tensor)
    (w : World) :
  param_group policy_optimizer = parameters policy ->
  param_group value_optimizer = parameters value_function ->
  (forall id, id ∈ parameters policy -> id ∉ parameters value_function) ->
  (forall w',
      optimise_value_function value_optimizer returns state_values w = Ok w' ->
      (forall id, id ∉ parameters value_function ->
                  data_of w' id = data_of w id) /\
      (forall id, id ∈ parameters policy -> data_of w' id = data_of w id) /\
      (Forall (fun v => t_leaves v ⊆ list_to_set (parameters value_function))
              state_values ->
       t_leaves returns = ∅ ->
       forall id, id ∈ parameters policy ->
                  w_store w' !! id = w_store w !! id))
  /\
  (forall w',
      optimise_policy policy_optimizer log_probs returns state_values w
      = Ok w' ->
      (forall id, id ∉ parameters policy -> data_of w' id = data_of w id) /\
      (forall id, id ∈ parameters value_function ->
                  data_of w' id = data_of w id) /\
      (Forall (fun lp => t_leaves lp ⊆ list_to_set (parameters policy))
              log_probs ->
       forall id, id ∈ parameters value_function ->
                  w_store w' !! id = w_store w !! id)).
Proof.
  intros Hp Hv Hdisj. split; intros w' Hrun.
  - assert (forall id, id ∉ parameters value_function ->
                       data_of w' id = data_of w id) as Hframe.
    { intros id Hid. eapply optimise_value_function_frame; [exact Hrun|].
      rewrite Hv. exact Hid. }
    split; [exact Hframe|]. split.
    + intros id Hid. apply Hframe, Hdisj, Hid.
    + intros Hsv Hret id Hid.
      eapply (optimise_value_function_entries
                (list_to_set (parameters value_function)));
        [exact Hrun | exact Hsv | | | ].
      * rewrite Hret. apply empty_subseteq.
      * rewrite elem_of_list_to_set. apply Hdisj, Hid.
      * rewrite Hv. apply Hdisj, Hid.
  - assert (forall id, id ∉ parameters policy ->
                       data_of w' id = data_of w id) as Hframe.
    { intros id Hid. eapply optimise_policy_frame; [exact Hrun|].
      rewrite Hp. exact Hid. }
    assert (forall id, id ∈ parameters value_function ->
                       id ∉ parameters policy) as Hdisj'.
    { intros id Hid Hin. exact (Hdisj id Hin Hid). }
    split; [exact Hframe|]. split.
    + intros id Hid. apply Hframe, Hdisj', Hid.
    + intros Hlp id Hid.
      eapply (optimise_policy_entries (list_to_set (parameters policy)));
        [exact Hrun | exact Hlp | | ].
      * rewrite elem_of_list_to_set. apply Hdisj', Hid.
      * rewrite Hp. apply Hdisj', Hid.
Qed.

End Optimisation.

(** Both steps on the stub: the critic's leaves policy parameter 1 at 10, the
    actor's leaves value parameter 3 at 30. *)
Lemma optimisers_no_cross_talk_witness :
  let r := fun _ _ : nat => 1%Q in
  let N := stub_networks 2 r in
  let w := stub_world 2 r in
  exists w1 w2,
    @optimise_value_function _ _ N stub_value_optimizer
      stub_returns stub_state_values w = Ok w1 /\
    @optimise_policy _ _ N stub_policy_optimizer
      stub_log_probs stub_returns stub_state_values w = Ok w2 /\
    w_store w1 !! 1%positive = Some (@mkP stub_tensorlib 10%Z None) /\
    w_store w1 !! 3%positive = Some (@mkP stub_tensorlib 29%Z (Some 1%Z)) /\
    w_store w2 !! 3%positive = Some (@mkP stub_tensorlib 30%Z None) /\
    w_store w2 !! 1%positive = Some (@mkP stub_tensorlib 9%Z (Some 1%Z)).
Proof.
  intros r N w.
  assert (forall id, id ∈ parameters stub_policy ->
                     id ∉ parameters stub_value) as Hdisj.
  { intros id Hin Hin'. apply list_elem_of_In in Hin, Hin'. cbn in Hin, Hin'.
    intuition congruence. }
  pose proof (@optimisers_no_cross_talk _ _ N stub_policy stub_value
                stub_policy_optimizer stub_value_optimizer
                stub_log_probs stub_returns stub_state_values w
                eq_refl eq_refl Hdisj) as [Hv Hp].
  destruct (@optimise_value_function _ _ N stub_value_optimizer
              stub_returns stub_state_values w) as [w1|e1] eqn:E1;
    [|vm_compute in E1; discriminate E1].
  destruct (@optimise_policy _ _ N stub_policy_optimizer
              stub_log_probs stub_returns stub_state_values w) as [w2|e2] eqn:E2;
    [|vm_compute in E2; discriminate E2].
  assert (Forall (fun v => t_leaves v ⊆ list_to_set (parameters stub_value))
                 stub_state_values) as Hsv
    by (apply Forall_replicate; reflexivity).
  assert (Forall (fun lp => t_leaves lp ⊆ list_to_set (parameters stub_policy))
                 stub_log_probs) as Hlp
    by (apply Forall_replicate; reflexivity).
  exists w1, w2. split; [reflexivity|]. split; [reflexivity|].
  split; [|split; [|split]].
  - rewrite (proj2 (proj2 (Hv w1 eq_refl)) Hsv eq_refl 1%positive);
      [reflexivity|].
    apply list_elem_of_In. cbn. tauto.
  - vm_compute in E1. injection E1 as <-. reflexivity.
  - rewrite (proj2 (proj2 (Hp w2 eq_refl)) Hlp 3%positive); [reflexivity|].
    apply list_elem_of_In. cbn. tauto.
  - vm_compute in E2. injection E2 as <-. reflexivity.
Defined.

(** ** Training Driver *)

Section TrainingDriver.
Context `{Sim : Simulator} `{TL : TensorLib} `{Net : !Networks}.
Variables (policy value_function : Module).
Variables (policy_optimizer value_optimizer : Optimizer).
Variables (max_steps : Z) (gamma : Q) (log_interval : Z).

#[local] Arguments standardise_returns : simpl never.
#[local] Arguments calculate_discounted_returns : simpl never.
#[local] Arguments generate_trajectory : simpl never.
#[local] Arguments optimise_value_function : simpl never.
#[local] Arguments optimise_policy : simpl never.
#[local] Arguments early_stopping : simpl never.
#[local] Arguments log_progress : simpl never.
#[local] Arguments window : simpl never.

Lemma length_window (h : list Q) :
  length (window h) = (length h `min` 100)%nat.
Proof. unfold window. rewrite length_drop. lia. Qed.

Lemma tl_drop {A} (k : nat) (l : list A) : tl (drop k l) = drop (S k) l.
Proof.
  revert k. induction l as [|a l IH]; intros [|k]; try reflexivity.
  apply (IH k).
Qed.

Lemma append_window (h : list Q) (x : Q) :
  append x (Deque.mk 100 (window h)) = Deque.mk 100 (window (h ++ [x])).
Proof.
  unfold append. cbn [items maxlen]. f_equal.
  rewrite length_app, length_window. cbn [length].
  unfold window. rewrite length_app. cbn [length].
  destruct (Nat.ltb_spec 100 (length h `min` 100 + 1)) as [Hfull|Hroom].
  - replace (length h + 1 - 100)%nat with (S (length h - 100)) by lia.
    rewrite <- (drop_app_le h [x]) by lia. apply tl_drop.
  - replace (length h - 100)%nat with O by lia.
    replace (length h + 1 - 100)%nat with O by lia. reflexivity.
Qed.

Lemma early_stopping_none (i : Z) (recent : deque Q) (w : World) :
  early_stopping None i recent w = Ok None.
Proof. reflexivity. Qed.

Lemma early_stopping_continue (thr : Q) (i : Z) (h : list Q) (w : World) :
  stop_condition thr h = false ->
  early_stopping (Some thr) i (Deque.mk 100 (window h)) w = Ok None.
Proof.
  unfold stop_condition, early_stopping, len. cbn [items maxlen].
  destruct (length (window h) =? 100)%nat; [|reflexivity].
  cbn [andb]. destruct (np_mean (window h)) as [avg|]; [|reflexivity].
  intros ->. reflexivity.
Qed.

Lemma early_stopping_break (thr : Q) (i : Z) (h : list Q) (w : World) :
  stop_condition thr h = true ->
  exists avg best worst,
    early_stopping (Some thr) i (Deque.mk 100 (window h)) w
    = Ok (Some (print (StatsLine i (Some avg) best worst)
                      (print (EarlyStopLine i) w))).
Proof.
  unfold stop_condition, early_stopping, len. cbn [items maxlen].
  destruct (Nat.eqb_spec (length (window h)) 100) as [Hlen|]; [|discriminate].
  cbn [andb]. destruct (np_mean (window h)) as [avg|]; [|discriminate].
  intros ->. destruct (window h) as [|x l]; [discriminate Hlen|].
  cbn. eauto.
Qed.

Lemma log_progress_state (i : Z) (recent : deque Q) (w w' : World) :
  log_progress i log_interval recent w = Ok w' ->
  w_env w' = w_env w /\ w_store w' = w_store w.
Proof.
  unfold log_progress. destruct (py_mod i log_interval) as [r|]; [|discriminate].
  cbn [mbind result_bind]. destruct (r =? 0)%Z; [|intros [= <-]; done].
  destruct (np_max (items recent)); [|discriminate]. cbn [mbind result_bind].
  destruct (np_min (items recent)); [|discriminate]. cbn [mbind result_bind].
  intros [= <-]. done.
Qed.

Abbreviation loop thr := (train_loop policy value_function
  policy_optimizer value_optimizer max_steps gamma log_interval thr).

(** Runs one iteration of the loop body in a hypothesis that says the run
    succeeded, naming the intermediate results. *)
Ltac run_episode H :=
  cbn [train_loop app] in H |- *;
  destruct (generate_trajectory policy value_function max_steps _)
    as [[[?log_probs ?rewards] ?state_values] ?w];
  destruct (calculate_discounted_returns _ max_steps gamma)
    as [?returns|?e]; [|discriminate H];
  cbn [mbind result_bind] in H |- *;
  destruct (optimise_value_function value_optimizer _ _ _)
    as [?w|?e]; [|discriminate H];
  cbn [mbind result_bind] in H |- *;
  destruct (optimise_policy policy_optimizer _ _ _ _)
    as [?w|?e]; [|discriminate H];
  cbn [mbind result_bind] in H |- *.

(** Without a threshold the loop runs every episode and adds one score
    for each. *)
Lemma train_loop_all (eps : list Z) :
  forall (recent : deque Q) (h : list Q) (w : World) scores w',
    loop None eps recent h w = Ok (scores, w') ->
    exists new, scores = h ++ new /\ length new = length eps.
Proof.
  induction eps as [|i eps IH]; intros recent h w scores w' Hrun.
  - cbn in Hrun. injection Hrun as <- <-. exists []. rewrite app_nil_r. done.
  - run_episode Hrun. rewrite early_stopping_none in Hrun.
    cbn [mbind result_bind] in Hrun.
    destruct (log_progress i log_interval _ _) as [w3|e]; [|discriminate Hrun].
    cbn [mbind result_bind] in Hrun.
    apply IH in Hrun as (new & -> & Hlen).
    exists (py_sum rewards :: new). rewrite <- app_assoc. cbn. auto.
Qed.

(** The run with a threshold follows the run without one up to the first
    episode that meets the stop condition, and ends there. *)
Lemma train_loop_stops (thr : Q) (eps : list Z) :
  forall (rest : list Z) (h : list Q) (w : World) scores w_k,
    eps <> [] ->
    loop None eps (Deque.mk 100 (window h)) h w = Ok (scores, w_k) ->
    stop_condition thr scores = true ->
    (forall j, (length h < j < length scores)%nat ->
               stop_condition thr (take j scores) = false) ->
    exists w',
      loop (Some thr) (eps ++ rest) (Deque.mk 100 (window h)) h w
      = Ok (scores, w') /\
      w_env w' = w_env w_k /\ w_store w' = w_store w_k.
Proof.
  induction eps as [|i eps IH]; intros rest h w scores w_k Hne Hrun Hstop Hfirst;
    [congruence|].
  run_episode Hrun. rewrite early_stopping_none in Hrun.
  cbn [mbind result_bind] in Hrun. rewrite append_window in Hrun |- *.
  destruct (log_progress i log_interval _ _) as [w3|e] eqn:Hlog;
    [|discriminate Hrun].
  cbn [mbind result_bind] in Hrun.
  destruct eps as [|i' eps].
  - cbn in Hrun. injection Hrun as <- <-.
    destruct (early_stopping_break thr i _ w2 Hstop) as (avg & best & worst & ->).
    cbn [mbind result_bind]. eexists. split; [reflexivity|].
    apply log_progress_state in Hlog as [-> ->]. done.
  - pose proof (train_loop_all _ _ _ _ _ _ Hrun) as (new & Hscores & Hlen).
    assert (stop_condition thr (h ++ [py_sum rewards]) = false) as Hcont.
    { rewrite <- (Hfirst (S (length h))).
      - rewrite Hscores. rewrite take_app_length'; [reflexivity|].
        rewrite length_app. cbn. lia.
      - rewrite Hscores, !length_app. cbn [length] in *. lia. }
    rewrite (early_stopping_continue thr i _ w2 Hcont).
    cbn [mbind result_bind].
    apply (IH rest _ _ _ _ ltac:(discriminate) Hrun Hstop).
    intros j Hj. apply Hfirst. rewrite length_app in Hj. cbn in Hj. lia.
Qed.

Lemma py_range_split (k : nat) (n : Z) :
  (Z.of_nat k <= n)%Z ->
  exists rest, py_range 1 (n + 1) = py_range 1 (Z.of_nat k + 1) ++ rest.
Proof.
  intros Hk. unfold py_range.
  replace (Z.to_nat (n + 1 - 1)) with (k + (Z.to_nat n - k))%nat by lia.
  replace (Z.to_nat (Z.of_nat k + 1 - 1)) with k by lia.
  rewrite seq_app, map_app. eauto.
Qed.

Lemma stop_condition_length (thr : Q) (h : list Q) :
  stop_condition thr h = true -> (100 <= length h)%nat.
Proof.
  unfold stop_condition. rewrite length_window.
  destruct (Nat.eqb_spec (length h `min` 100) 100); [lia | discriminate].
Qed.

(** C6. Let [scores] be the scores of the first [k] episodes, as the driver
    produces them when nothing stops it.  If episode [k <= num_episodes] is
    the first at whose end the rolling window holds exactly 100 scores with
    mean at least the threshold, the driver with that threshold configured
    ends its loop at episode [k]: it returns exactly these [k] scores and
    leaves the simulator and the parameters as [k] episodes leave them. *)
Theorem early_stopping_ends_training (num_episodes : Z) (threshold : Q)
    (k : nat) (w : World) (scores : list Q) (w_k : World) :
  train_agent policy value_function policy_optimizer value_optimizer
    (Z.of_nat k) max_steps gamma log_interval None w = Ok (scores, w_k) ->
  (Z.of_nat k <= num_episodes)%Z ->
  stop_condition threshold scores = true ->
  (forall j, (j < k)%nat -> stop_condition threshold (take j scores) = false) ->
  exists w',
    train_agent policy value_function policy_optimizer value_optimizer
      num_episodes max_steps gamma log_interval (Some threshold) w
    = Ok (scores, w') /\
    length scores = k /\
    w_env w' = w_env w_k /\ w_store w' = w_store w_k.
Proof.
  unfold train_agent. cbn [Deque.new Z.ltb Z.compare mbind result_bind].
  change (Z.to_nat 100) with 100%nat.
  change (@nil Q) with (window []) at 1 3.
  intros Hrun Hk Hstop Hfirst.
  destruct (py_range_split k num_episodes Hk) as [rest ->].
  pose proof (train_loop_all _ _ _ _ _ _ Hrun) as (new & Hscores & Hlen).
  assert (length scores = k) as Hlength.
  { rewrite Hscores. cbn [app]. rewrite Hlen. unfold py_range.
    rewrite length_map, length_seq. lia. }
  pose proof (stop_condition_length _ _ Hstop) as H100.
  assert (py_range 1 (Z.of_nat k + 1) <> []) as Hne.
  { intros E. apply (f_equal length) in E. unfold py_range in E.
    rewrite length_map, length_seq in E. cbn in E. lia. }
  destruct (train_loop_stops threshold _ rest [] w scores w_k Hne Hrun Hstop)
    as (w' & Hrun' & Henv & Hstore).
  { intros j Hj. apply Hfirst. lia. }
  exists w'. auto.
Qed.

End TrainingDriver.

(** Threshold 230 and a window whose mean first reaches 230 at episode 150:
    of 10000 episodes the driver runs 150. *)
Lemma early_stopping_ends_training_witness :
  let N := stub_networks 2 late_reward in
  let w := stub_world 2 late_reward in
  let scores := replicate 50 0%Q ++ replicate 100 230%Q in
  exists w',
    @train_agent _ _ N stub_policy stub_value
      stub_policy_optimizer stub_value_optimizer
      10000 1000 (99 # 100) 100 (Some 230%Q) w
    = Ok (scores, w') /\
    length scores = 150%nat.
Proof.
  intros N w scores.
  assert (exists w_k,
             @train_agent _ _ N stub_policy stub_value
               stub_policy_optimizer stub_value_optimizer
               (Z.of_nat 150) 1000 (99 # 100) 100 None w
             = Ok (scores, w_k)) as [w_k Hrun].
  { eexists. vm_compute. reflexivity. }
  destruct (@early_stopping_ends_training _ _ N stub_policy stub_value
              stub_policy_optimizer stub_value_optimizer
              1000 (99 # 100) 100 10000 230%Q 150%nat w scores w_k Hrun)
    as (w' & Hstopped & Hlen & _).
  - lia.
  - vm_compute. reflexivity.
  - intros j Hj.
    assert (forallb (fun j => negb (stop_condition 230 (take j scores)))
                    (seq 0 150) = true) as Hall by (vm_compute; reflexivity).
    rewrite forallb_forall in Hall. apply negb_true_iff, Hall, in_seq. lia.
  - exists w'. split; [exact Hstopped | exact Hlen].
Defined.

(** ** The training driver returns

    With at least one step per episode, a non-zero logging interval and
    modules that own parameters, no call of an episode raises. *)

Section TrainingReturns.
Context `{Sim : Simulator} `{TL : TensorLib} `{Net : !Networks}.
Variables (policy value_function : Module).

Let Pp : gset ParamId := list_to_set (parameters policy).
Let Pv : gset ParamId := list_to_set (parameters value_function).

Lemma trajectory_step_shapes state (w : World) lp r v next done w' :
  trajectory_step policy value_function state w = ((lp, r, v, next, done), w') ->
  scalar_on Pp lp /\ scalar_on Pv v.
Proof.
  unfold trajectory_step, act, call_value.
  destruct (policy_sample policy (w_store w) state (w_rng w)) as [[a l] rng].
  destruct (env_step _ a) as [[[[n rw] d] t] env].
  intros [= <- _ <- _ _ _]. split; split; reflexivity.
Qed.

Lemma trajectory_loop_shapes (steps : nat) :
  forall state log_probs rewards state_values (w : World),
    Forall (scalar_on Pp) log_probs ->
    Forall (scalar_on Pv) state_values ->
    let res := trajectory_loop policy value_function steps state
                 log_probs rewards state_values w in
    Forall (scalar_on Pp) res.1.1.1 /\ Forall (scalar_on Pv) res.1.2.
Proof.
  induction steps as [|n IH]; intros state lps rs vs w Hlp Hv; [cbn; auto|].
  cbn [trajectory_loop].
  destruct (trajectory_step policy value_function state w)
    as [[[[[lp r] v] next] done] w'] eqn:Hstep.
  apply trajectory_step_shapes in Hstep as [Hlp1 Hv1].
  assert (Forall (scalar_on Pp) (lps ++ [lp])) as Hlp'
    by (apply Forall_app; auto).
  assert (Forall (scalar_on Pv) (vs ++ [v])) as Hv'
    by (apply Forall_app; auto).
  destruct done; [cbn; auto|]. apply IH; assumption.
Qed.

Lemma generate_trajectory_shapes (max_steps : Z) (w : World) :
  let res := generate_trajectory policy value_function max_steps w in
  Forall (scalar_on Pp) res.1.1.1 /\ Forall (scalar_on Pv) res.1.2.
Proof.
  unfold generate_trajectory. destruct (env_reset (w_env w)) as [state env].
  apply trajectory_loop_shapes; constructor.
Qed.

Lemma concat_scalars (P : gset ParamId) (ts : list Tensor) :
  Forall (scalar_on P) ts -> length (concat (map t_data ts)) = length ts.
Proof.
  induction 1 as [|t ts [Ht _] _ IH]; [reflexivity|].
  cbn. rewrite length_app, Ht, IH. reflexivity.
Qed.

Lemma union_scalars (P : gset ParamId) (ts : list Tensor) :
  Forall (fun t => t_leaves t = P) ts -> ts <> [] -> ⋃ (map t_leaves ts) = P.
Proof.
  induction 1 as [|t ts Ht Hts IH]; [congruence|]. intros _. cbn.
  destruct ts as [|t' ts].
  - cbn. rewrite Ht. apply (right_id_L ∅ (∪)).
  - rewrite IH by discriminate. rewrite Ht. apply (idemp_L (∪)).
Qed.

Lemma torch_stack_scalars (P : gset ParamId) (ts : list Tensor) :
  Forall (scalar_on P) ts -> ts <> [] ->
  exists t, torch_stack ts = Ok t /\
            length (t_data t) = length ts /\ t_leaves t = P.
Proof.
  intros Hts Hne. destruct ts as [|t0 ts]; [congruence|].
  eexists. split; [reflexivity|]. cbn [t_data t_leaves]. split.
  - apply (concat_scalars P), Hts.
  - apply union_scalars; [|discriminate].
    eapply Forall_impl; [exact Hts|]. intros t [_ Ht]. exact Ht.
Qed.

Lemma broadcast2_same_length (f : tval -> tval -> tval) (a b : Tensor) :
  length (t_data a) = length (t_data b) ->
  exists t, broadcast2 f a b = Ok t /\
            length (t_data t) = length (t_data a) /\
            t_leaves t = t_leaves a ∪ t_leaves b.
Proof.
  unfold broadcast2. intros Hlen.
  destruct (t_data a) as [|x [|x' xs]], (t_data b) as [|y [|y' ys]];
    try discriminate Hlen.
  - eexists. split; [reflexivity|]. split; reflexivity.
  - eexists. split; [reflexivity|]. split; reflexivity.
  - cbn [length] in Hlen. assert (length xs = length ys) as Hlen' by lia.
    cbn [length]. rewrite Hlen', Nat.eqb_refl. eexists. split; [reflexivity|].
    split; [|reflexivity]. cbn [t_data]. rewrite length_zip_with. cbn. lia.
Qed.

Lemma backward_returns (loss : Tensor) (w : World) :
  t_leaves loss <> ∅ -> exists w', backward loss w = Ok w'.
Proof.
  intros Hne. unfold backward.
  destruct (decide (t_leaves loss = ∅)); [contradiction|]. eauto.
Qed.

Lemma list_to_set_nonempty (l : list ParamId) :
  l <> [] -> (list_to_set l : gset ParamId) <> ∅.
Proof.
  destruct l as [|x l]; [congruence|]. intros _ E.
  assert (x ∈ (list_to_set (x :: l) : gset ParamId)) as Hin
    by (apply elem_of_list_to_set; constructor).
  rewrite E in Hin. exact (not_elem_of_empty x Hin).
Qed.

Lemma optimise_value_function_returns (value_optimizer : Optimizer)
    (returns : Tensor) (state_values : list Tensor) (w : World) :
  parameters value_function <> [] ->
  Forall (scalar_on Pv) state_values ->
  state_values <> [] ->
  length (t_data returns) = length state_values ->
  exists w', optimise_value_function value_optimizer returns state_values w
             = Ok w'.
Proof.
  intros Hparams Hsv Hne Hlen. unfold optimise_value_function, mse_loss.
  destruct (torch_stack_scalars Pv state_values Hsv Hne)
    as (sv & -> & Hsvlen & Hsvl).
  cbn [fmap result_fmap mbind result_bind]. unfold squeeze.
  destruct (broadcast2_same_length tv_sub sv returns ltac:(congruence))
    as (d & -> & _ & Hdl).
  cbn [mbind result_bind].
  destruct (backward_returns
              (mkTensor [torch_mean (map (fun x => tv_mul x x) (t_data d))]
                        (t_leaves d))
              (zero_grad value_optimizer w)) as [w1 ->].
  - cbn [t_leaves]. rewrite Hdl, Hsvl. intros E.
    apply (list_to_set_nonempty _ Hparams). fold Pv.
    apply (anti_symm (⊆)); [|apply empty_subseteq].
    rewrite <- E. apply union_subseteq_l.
  - cbn [mbind result_bind]. eauto.
Qed.

Lemma policy_losses_return (log_probs advantages : list Tensor) :
  Forall (scalar_on Pp) log_probs ->
  Forall (fun a => length (t_data a) = 1%nat) advantages ->
  length log_probs = length advantages ->
  log_probs <> [] ->
  exists l0 rest,
    mapM (fun '(log_prob, advantage) =>
            broadcast2 tv_mul (t_neg log_prob) advantage)
         (zip log_probs advantages) = Ok (l0 :: rest) /\
    Pp ⊆ t_leaves l0.
Proof.
  revert advantages.
  induction log_probs as [|lp lps IH]; intros [|adv advs] Hlp Hadv Hlen Hne;
    try congruence; try discriminate Hlen.
  apply Forall_cons in Hlp as [[Hlp1 Hlpl] Hlps].
  apply Forall_cons in Hadv as [Hadv1 Hadvs].
  cbn [length] in Hlen. injection Hlen as Hlen.
  cbn [zip zip_with mapM].
  destruct (broadcast2_same_length tv_mul (t_neg lp) adv) as (l0 & -> & _ & Hl0).
  { cbn [t_neg t_data]. rewrite length_map. congruence. }
  cbn [mbind result_bind].
  assert (exists rest, mapM (fun '(log_prob, advantage) =>
                               broadcast2 tv_mul (t_neg log_prob) advantage)
                            (zip lps advs) = Ok rest) as [rest Hrest].
  { destruct lps as [|lp' lps'].
    - exists []. reflexivity.
    - destruct (IH advs Hlps Hadvs Hlen ltac:(discriminate))
        as (l1 & rest & Hrun & _). eauto. }
  change (zip lps advs) with (zip_with pair lps advs) in Hrest.
  rewrite Hrest. cbn [mbind result_bind mret result_ret].
  exists l0, rest. split; [reflexivity|].
  rewrite Hl0. cbn [t_neg t_leaves]. rewrite Hlpl. apply union_subseteq_l.
Qed.

Lemma optimise_policy_returns (policy_optimizer : Optimizer)
    (log_probs : list Tensor) (returns : Tensor) (state_values : list Tensor)
    (w : World) :
  parameters policy <> [] ->
  Forall (scalar_on Pp) log_probs ->
  Forall (scalar_on Pv) state_values ->
  state_values <> [] ->
  length log_probs = length state_values ->
  length (t_data returns) = length state_values ->
  exists w', optimise_policy policy_optimizer log_probs returns state_values w
             = Ok w'.
Proof.
  intros Hparams Hlp Hsv Hne Hlen Hret. unfold optimise_policy.
  destruct (torch_stack_scalars Pv state_values Hsv Hne)
    as (sv & -> & Hsvlen & _).
  cbn [fmap result_fmap mbind result_bind]. unfold squeeze.
  destruct (broadcast2_same_length tv_sub returns (detach sv))
    as (adv & -> & Hadvlen & _).
  { cbn [detach t_data]. congruence. }
  cbn [mbind result_bind].
  destruct (policy_losses_return log_probs
              (iter_tensor (torch_tensor (t_data adv))))
    as (l0 & rest & -> & Hl0).
  - exact Hlp.
  - unfold iter_tensor. apply Forall_map, Forall_true. reflexivity.
  - unfold iter_tensor. cbn [torch_tensor t_data]. rewrite length_map. congruence.
  - destruct log_probs; [|discriminate]. destruct state_values; [congruence|].
    discriminate Hlen.
  - cbn [mbind result_bind torch_cat fmap result_fmap].
    destruct (backward_returns
                (t_sum (mkTensor (concat (map t_data (l0 :: rest)))
                                 (⋃ map t_leaves (l0 :: rest))))
                (zero_grad policy_optimizer w)) as [w1 ->].
    + cbn [t_sum t_leaves map union_list foldr]. intros E.
      apply (list_to_set_nonempty _ Hparams). fold Pp.
      apply (anti_symm (⊆)); [|apply empty_subseteq].
      rewrite <- E. etrans; [exact Hl0 | apply union_subseteq_l].
    + cbn [mbind result_bind]. eauto.
Qed.

Lemma early_stopping_returns thr (i : Z) (recent : deque Q) (w : World) :
  exists r, early_stopping thr i recent w = Ok r.
Proof.
  unfold early_stopping. destruct thr as [threshold|]; [|eauto].
  destruct (len recent =? maxlen recent)%nat; [|eauto].
  destruct (items recent) as [|x l]; [cbn; eauto|].
  cbn [np_mean]. destruct (Qle_bool threshold _); [|eauto].
  cbn. eauto.
Qed.

Lemma log_progress_returns (i log_interval : Z) (recent : deque Q) (w : World) :
  log_interval <> 0%Z -> items recent <> [] ->
  exists w', log_progress i log_interval recent w = Ok w'.
Proof.
  intros Hli Hne. unfold log_progress, py_mod.
  destruct (Z.eqb_spec log_interval 0); [contradiction|].
  cbn [mbind result_bind]. destruct (_ =? 0)%Z; [|eauto].
  destruct (items recent) as [|x l]; [congruence|]. cbn. eauto.
Qed.

Lemma append_nonempty (x : Q) (d : deque Q) :
  maxlen d = 100%nat ->
  maxlen (append x d) = 100%nat /\ items (append x d) <> [].
Proof.
  intros Hm. unfold append. cbn [maxlen items]. split; [exact Hm|].
  rewrite Hm. destruct (Nat.ltb_spec 100 (length (items d ++ [x]))) as [H|H].
  - destruct (items d ++ [x]) as [|a [|b l]]; cbn in H; try lia. discriminate.
  - destruct (items d); discriminate.
Qed.

Lemma standardise_returns_length (returns : deque Q) :
  length (t_data (standardise_returns returns)) = length (items returns).
Proof.
  unfold standardise_returns, torch_tensor. cbn [t_data].
  rewrite !length_map. reflexivity.
Qed.

(** The loop of the training driver returns a score history. *)
Lemma train_loop_returns (policy_optimizer value_optimizer : Optimizer)
    (max_steps : Z) (gamma : Q) (log_interval : Z) thr :
  (1 <= max_steps)%Z ->
  log_interval <> 0%Z ->
  parameters policy <> [] ->
  parameters value_function <> [] ->
  forall (indices : list Z) (recent : deque Q) (scores : list Q) (w : World),
    maxlen recent = 100%nat ->
    exists scores' w',
      train_loop policy value_function policy_optimizer value_optimizer
        max_steps gamma log_interval thr indices recent scores w
      = Ok (scores', w').
Proof.
  intros Hmax Hli Hpp Hpv.
  induction indices as [|i indices IH]; intros recent scores w Hrecent; [cbn; eauto|].
  cbn [train_loop].
  pose proof (generate_trajectory_lengths policy value_function max_steps w)
    as (Hl1 & Hl2 & Hl3).
  pose proof (steps_until_done_bounds
                (episode_flags policy value_function max_steps w)) as Hb.
  rewrite length_episode_flags in Hb. specialize (Hb ltac:(lia)).
  pose proof (generate_trajectory_shapes max_steps w) as [Hs1 Hs2].
  destruct (generate_trajectory policy value_function max_steps w)
    as [[[lps rs] vs] w1].
  cbn [fst snd] in Hl1, Hl2, Hl3, Hs1, Hs2.
  rewrite calculate_discounted_returns_eq.
  destruct (Z.ltb_spec max_steps 0); [lia|]. cbn [mbind result_bind].
  set (returns := Deque.mk _ _).
  assert (length (t_data (standardise_returns returns)) = length vs) as Hret.
  { rewrite standardise_returns_length. unfold returns. cbn [items].
    rewrite length_take, length_discounted. lia. }
  assert (vs <> []) as Hne by (destruct vs; [cbn in Hl3; lia | discriminate]).
  destruct (optimise_value_function_returns value_optimizer
              (standardise_returns returns) vs w1 Hpv Hs2 Hne Hret) as [w2 ->].
  cbn [mbind result_bind].
  destruct (optimise_policy_returns policy_optimizer lps
              (standardise_returns returns) vs w2 Hpp Hs1 Hs2 Hne
              ltac:(congruence) Hret) as [w3 ->].
  cbn [mbind result_bind].
  destruct (append_nonempty (py_sum rs) recent Hrecent) as [Hm' Hne'].
  destruct (early_stopping_returns thr i (append (py_sum rs) recent) w3)
    as [[w4|] ->]; cbn [mbind result_bind]; [eauto|].
  destruct (log_progress_returns i log_interval _ w3 Hli Hne') as [w4 ->].
  cbn [mbind result_bind]. apply IH, Hm'.
Qed.

(** The training driver returns a score history, whatever the number of
    episodes and the threshold. *)
Lemma train_agent_returns (policy_optimizer value_optimizer : Optimizer)
    (num_episodes max_steps : Z) (gamma : Q) (log_interval : Z) thr
    (w : World) :
  (1 <= max_steps)%Z ->
  log_interval <> 0%Z ->
  parameters policy <> [] ->
  parameters value_function <> [] ->
  exists scores w',
    train_agent policy value_function policy_optimizer value_optimizer
      num_episodes max_steps gamma log_interval thr w
    = Ok (scores, w').
Proof.
  intros Hmax Hli Hpp Hpv. unfold train_agent. cbn.
  apply train_loop_returns; auto.
Qed.

End TrainingReturns.

(** ** Evaluation Driver *)

Section EvaluationDriver.
Context `{Sim : Simulator} `{TL : TensorLib} `{Net : !Networks}.
Variable policy : Module.

Lemma act_frame (state : Obs) (w w1 : World) action lp :
  act policy state w = ((action, lp), w1) ->
  w_store w1 = w_store w /\ w_opt w1 = w_opt w /\ w_stdout w1 = w_stdout w.
Proof.
  unfold act.
  destruct (policy_sample policy (w_store w) state (w_rng w)) as [[a l] rng].
  intros [= _ _ <-]. done.
Qed.

(** The inner loop performs an episode: it adds up its rewards and leaves in
    [step] the index of its last step. *)
Lemma evaluate_steps_episode (n : nat) :
  forall (start : nat) (state : Obs) (acc : Q) (step : option nat) (w : World),
  exists rewards w',
    evaluate_steps policy (seq start n) state acc step w
    = ((fold_left Qplus rewards acc,
        if n is O then step else Some (start + length rewards - 1)%nat), w') /\
    episode policy n state w rewards w' /\
    ((1 <= n)%nat -> (1 <= length rewards <= n)%nat) /\
    (w_store w' = w_store w /\ w_opt w' = w_opt w /\ w_stdout w' = w_stdout w).
Proof.
  induction n as [|n IH]; intros start state acc step w.
  - exists [], w. cbn. repeat split; try constructor; lia.
  - cbn [seq evaluate_steps].
    destruct (act policy state w) as [[action lp] w1] eqn:Hact.
    destruct (env_step (w_env w1) action)
      as [[[[next reward] done] truncated] env] eqn:Hstep.
    pose proof (act_frame _ _ _ _ _ Hact) as (Hstore & Hopt & Hout).
    destruct done.
    + exists [reward], (set_env env w1). cbn [fold_left length].
      replace (start + 1 - 1)%nat with start by lia.
      split; [reflexivity|]. split; [eapply episode_terminated; eassumption|].
      split; [lia|]. cbn. auto.
    + destruct (IH (S start) next (acc + reward)%Q (Some start) (set_env env w1))
        as (rewards & w' & Hrun & Hep & Hlen & Hst & Hop & Hso).
      exists (reward :: rewards), w'. rewrite Hrun. cbn [fold_left length].
      split; [|split; [|split; [|split; [|split]]]].
      * f_equal. f_equal. destruct n as [|n].
        -- inversion Hep; subst. f_equal. cbn. lia.
        -- f_equal. specialize (Hlen ltac:(lia)). lia.
      * eapply episode_continues; eassumption.
      * destruct n as [|n]; [inversion Hep; subst; cbn; lia|].
        specialize (Hlen ltac:(lia)). lia.
      * rewrite Hst. exact Hstore.
      * rewrite Hop. exact Hopt.
      * rewrite Hso. exact Hout.
Qed.

(** The outer loop performs a run of episodes and records the total reward
    and the number of steps of each. *)
Lemma evaluate_loop_episodes (max_steps : Z) (eps : list Z) :
  (1 <= max_steps)%Z ->
  forall (all_rewards : list Q) (all_steps : list Z) (step : option nat)
         (w : World),
  exists trace w',
    evaluate_loop policy max_steps eps all_rewards all_steps step w
    = Ok ((all_rewards ++ map py_sum trace,
           all_steps ++ map (fun rs => Z.of_nat (length rs)) trace), w') /\
    episodes policy max_steps (length eps) w trace w' /\
    Forall (fun rs => (1 <= Z.of_nat (length rs) <= max_steps)%Z) trace /\
    (w_store w' = w_store w /\ w_opt w' = w_opt w /\ w_stdout w' = w_stdout w).
Proof.
  intros Hmax. induction eps as [|i eps IH]; intros all_rewards all_steps step w.
  - exists [], w. cbn. rewrite !app_nil_r. repeat split; constructor.
  - cbn [evaluate_loop length].
    destruct (env_reset (w_env w)) as [state env] eqn:Hreset.
    destruct (evaluate_steps_episode (Z.to_nat max_steps) O state 0%Q step
                (set_env env w))
      as (rewards & w1 & Hrun & Hep & Hlen & Hst & Hop & Hso).
    rewrite Hrun. specialize (Hlen ltac:(lia)).
    destruct (Z.to_nat max_steps) as [|m] eqn:Hm; [lia|].
    destruct (IH (all_rewards ++ [fold_left Qplus rewards 0%Q])
                 (all_steps ++ [(Z.of_nat (0 + length rewards - 1) + 1)%Z])
                 (Some (0 + length rewards - 1)%nat) w1)
      as (trace & w' & Hloop & Heps & Hall & Hst' & Hop' & Hso').
    exists (rewards :: trace), w'. rewrite Hloop. cbn [map].
    rewrite <- !app_assoc. cbn [app].
    replace (Z.of_nat (0 + length rewards - 1) + 1)%Z
      with (Z.of_nat (length rewards)) by lia.
    split; [reflexivity|]. split; [|split; [|split; [|split]]].
    + eapply episodes_next; [exact Hreset | | exact Heps].
      rewrite Hm. exact Hep.
    + constructor; [lia | exact Hall].
    + rewrite Hst', Hst. reflexivity.
    + rewrite Hop', Hop. reflexivity.
    + rewrite Hso', Hso. reflexivity.
Qed.

Lemma length_py_range (n : Z) : length (py_range 1 (n + 1)) = Z.to_nat n.
Proof. unfold py_range. rewrite length_map, length_seq. f_equal. lia. Qed.

(** C8. With [num_episodes >= 1] and [max_steps >= 1] the Evaluation Driver
    returns two sequences of [num_episodes] entries: the [i]-th entries are
    the sum of the rewards and the number of the steps of the [i]-th
    episode of the run, each episode taking between 1 and [max_steps]
    steps; it prints the arithmetic means of the two sequences; and it
    leaves the parameters and the optimizers untouched. *)
Theorem evaluate_statistics (num_episodes max_steps : Z) (w : World) :
  (1 <= num_episodes)%Z ->
  (1 <= max_steps)%Z ->
  exists (all_rewards : list Q) (all_steps : list Z) (w' : World)
         (trace : list (list Q)) (w_run : World),
    evaluate policy num_episodes max_steps w
    = Ok ((all_rewards, all_steps), w') /\
    length all_rewards = Z.to_nat num_episodes /\
    length all_steps = Z.to_nat num_episodes /\
    episodes policy max_steps (Z.to_nat num_episodes) w trace w_run /\
    all_rewards = map py_sum trace /\
    all_steps = map (fun rs => Z.of_nat (length rs)) trace /\
    Forall (fun n => (1 <= n <= max_steps)%Z) all_steps /\
    w_stdout w'
    = w_stdout w
      ++ [EvalHeader num_episodes;
          EvalAverageReward
            (Some (py_sum all_rewards / inject_Z num_episodes)%Q);
          EvalAverageLength
            (Some (py_sum (map inject_Z all_steps) / inject_Z num_episodes)%Q)]
    /\
    w_env w' = w_env w_run /\ w_store w' = w_store w /\ w_opt w' = w_opt w.
Proof.
  intros HN Hmax. unfold evaluate.
  destruct (evaluate_loop_episodes max_steps (py_range 1 (num_episodes + 1))
              Hmax [] [] None w)
    as (trace & w_run & Hloop & Heps & Hall & Hst & Hop & Hso).
  rewrite Hloop. cbn [mbind result_bind app]. rewrite length_py_range in Heps.
  assert (length trace = Z.to_nat num_episodes) as Hlen.
  { clear -Heps. induction Heps; cbn; congruence. }
  eexists _, _, _, trace, w_run. split; [reflexivity|].
  rewrite !length_map, Hlen.
  split; [reflexivity|]. split; [reflexivity|]. split; [exact Heps|].
  split; [reflexivity|]. split; [reflexivity|]. split.
  { apply Forall_map. exact Hall. }
  split; [|cbn; auto].
  cbn [print w_stdout]. rewrite Hso, <- !app_assoc. cbn [app].
  assert (forall l : list Q, length l = Z.to_nat num_episodes ->
            np_mean l = Some (py_sum l / inject_Z num_episodes)%Q) as Hmean.
  { intros l Hl. destruct l as [|x l]; [cbn in Hl; lia|].
    unfold np_mean. rewrite Hl, Z2Nat.id by lia. reflexivity. }
  rewrite !Hmean by (rewrite ?length_map; exact Hlen). reflexivity.
Qed.

End EvaluationDriver.

(** Ten episodes of 50 steps with reward 2 each: rewards [100]*10, steps
    [50]*10, means 100 and 50. *)
Lemma evaluate_statistics_witness :
  let r := fun _ _ : nat => 2%Q in
  let N := stub_networks 50 r in
  let w := stub_world 50 r in
  exists w' avg_reward avg_steps,
    @evaluate _ _ N stub_policy 10 1000 w
    = Ok ((replicate 10 100%Q, replicate 10 50%Z), w') /\
    w_stdout w' = [EvalHeader 10; EvalAverageReward (Some avg_reward);
                   EvalAverageLength (Some avg_steps)] /\
    (avg_reward == 100)%Q /\ (avg_steps == 50)%Q /\
    w_store w' = w_store w.
Proof.
  intros r N w.
  destruct (@evaluate_statistics _ _ N stub_policy 10%Z 1000%Z w
              ltac:(lia) ltac:(lia))
    as (all_rewards & all_steps & w' & trace & w_run & Hev & _ & _ & _ & _ & _
        & _ & Hout & _ & Hstore & _).
  assert (exists w0, @evaluate _ _ N stub_policy 10 1000 w
                     = Ok ((replicate 10 100%Q, replicate 10 50%Z), w0))
    as [w0 Hrun] by (eexists; vm_compute; reflexivity).
  rewrite Hrun in Hev. injection Hev as <- <- <-.
  eexists w0, _, _. split; [exact Hrun|]. split; [exact Hout|].
  split; [|split; [|exact Hstore]]; vm_compute; reflexivity.
Defined.

(** * Further properties *)

(** ** Return Calculator: what the returns are *)

Section DiscountedSums.

Lemma power_sum_shift (gamma : Q) (l : list Q) :
  forall k, (power_sum gamma (S k) l == gamma * power_sum gamma k l)%Q.
Proof.
  induction l as [|r rest IH]; intros k; cbn [power_sum]; [ring|].
  rewrite (IH (S k)).
  replace (Z.of_nat (S k)) with (1 + Z.of_nat k)%Z by lia.
  rewrite Qpower_plus' by lia. change (gamma ^ 1)%Q with gamma. ring.
Qed.

Lemma nth_discounted_power_sum (gamma : Q) (l : list Q) :
  forall t, (nth t (discounted gamma l) 0 == power_sum gamma 0 (drop t l))%Q.
Proof.
  induction l as [|r rest IH]; intros t.
  - destruct t; reflexivity.
  - destruct t as [|t].
    + rewrite nth_discounted by (cbn; lia).
      change (drop 0 (r :: rest)) with (r :: rest).
      cbn [nth discounted power_sum].
      rewrite (IH O), power_sum_shift. change (drop 0 rest) with rest.
      change (gamma ^ Z.of_nat 0)%Q with 1%Q. ring.
    + change (drop (S t) (r :: rest)) with (drop t rest).
      cbn [discounted nth]. apply IH.
Qed.



Lemma discounted_zero (l : list Q) :
  Forall2 Qeq (discounted 0 l) l.
Proof.
  induction l as [|r rest IH]; cbn [discounted]; constructor; [ring | exact IH].
Qed.

(** X2: with a discount factor of 0 the returns are the rewards. *)
Theorem undiscounted_zero_gamma (rewards : list Q) (max_steps : Z) :
  (Z.of_nat (length rewards) <= max_steps)%Z ->
  exists returns : deque Q,
    calculate_discounted_returns rewards max_steps 0 = Ok returns /\
    Forall2 Qeq (items returns) rewards.
Proof.
  intros Hmax. rewrite calculate_discounted_returns_eq.
  destruct (Z.ltb_spec max_steps 0); [lia|].
  eexists. split; [reflexivity|]. cbn [items].
  rewrite take_ge by (rewrite length_discounted; lia).
  apply discounted_zero.
Qed.

Lemma undiscounted_zero_gamma_witness :
  (Z.of_nat (length [3; -1; 2]%Q) <= 3)%Z /\
  exists returns : deque Q,
    calculate_discounted_returns [3; -1; 2]%Q 3 0 = Ok returns /\
    Forall2 Qeq (items returns) [3; -1; 2]%Q.
Proof.
  split; [cbn; lia|].
  apply (undiscounted_zero_gamma [3; -1; 2]%Q 3). cbn. lia.
Defined.

Lemma fold_left_Qplus (l : list Q) (a : Q) :
  (fold_left Qplus l a == a + fold_left Qplus l 0)%Q.
Proof.
  revert a. induction l as [|r rest IH]; intros a; cbn [fold_left]; [ring|].
  rewrite (IH (a + r)%Q), (IH (0 + r)%Q). ring.
Qed.

Lemma py_sum_cons (r : Q) (l : list Q) : (py_sum (r :: l) == r + py_sum l)%Q.
Proof.
  unfold py_sum. cbn [fold_left]. rewrite fold_left_Qplus. ring.
Qed.

Lemma power_sum_one (l : list Q) : forall k, (power_sum 1 k l == py_sum l)%Q.
Proof.
  induction l as [|r rest IH]; intros k; cbn [power_sum]; [reflexivity|].
  rewrite IH, py_sum_cons, Qpower_1. ring.
Qed.



Lemma discounted_bounded (gamma B : Q) (l : list Q) :
  (0 <= gamma)%Q -> (gamma < 1)%Q ->
  Forall (fun r => (Qabs r <= B)%Q) l ->
  Forall (fun g => (Qabs g * (1 - gamma) <= B)%Q) (discounted gamma l).
Proof.
  intros Hg0 Hg1. induction 1 as [|r rest Hr Hrest IH]; cbn [discounted];
    [constructor|].
  constructor; [|exact IH].
  assert (0 <= B)%Q as HB by (pose proof (Qabs_nonneg r); Lqa.lra).
  set (h := match discounted gamma rest with [] => 0%Q | g :: _ => g end).
  assert (Qabs h * (1 - gamma) <= B)%Q as Hh.
  { unfold h. destruct (discounted gamma rest) as [|g D].
    - change (Qabs 0) with 0%Q. Lqa.lra.
    - exact (Forall_inv IH). }
  pose proof (Qabs_triangle r (gamma * h)) as Htri.
  rewrite Qabs_Qmult, (Qabs_pos gamma Hg0) in Htri.
  pose proof (Qabs_nonneg h). Lqa.nra.
Qed.



End DiscountedSums.

(** ** The rolling score window *)

Section RollingWindow.

Lemma append_drop {A} (c : nat) (xs : list A) (x : A) :
  append x (Deque.mk c (drop (length xs - c) xs))
  = Deque.mk c (drop (length (xs ++ [x]) - c) (xs ++ [x])).
Proof.
  unfold append. cbn [items maxlen]. f_equal.
  rewrite !length_app, length_drop. cbn [length].
  destruct (Nat.ltb_spec c (length xs - (length xs - c) + 1)) as [Hfull|Hroom].
  - replace (length xs + 1 - c)%nat with (S (length xs - c)) by lia.
    rewrite <- (drop_app_le xs [x]) by lia. apply tl_drop.
  - replace (length xs - c)%nat with O by lia.
    replace (length xs + 1 - c)%nat with O by lia. reflexivity.
Qed.

(** X5: a deque with bound [c] that has received the scores one by one
    holds the last [min(n, c)] of them in arrival order; the training
    driver's window is the case [c = 100]. *)
Theorem rolling_window_keeps_last (c : nat) (scores : list Q) :
  let recent_scores := foldl (fun d s => append s d) (Deque.mk c []) scores in
  recent_scores = Deque.mk c (drop (length scores - c) scores) /\
  len recent_scores = (length scores `min` c)%nat.
Proof.
  cbn zeta.
  assert (foldl (fun d s => append s d) (Deque.mk c []) scores
          = Deque.mk c (drop (length scores - c) scores)) as Hfold.
  { induction scores as [|s scores IH] using rev_ind; [reflexivity|].
    rewrite foldl_app. cbn [foldl]. rewrite IH. apply append_drop. }
  rewrite Hfold. split; [reflexivity|].
  unfold len. cbn [items]. rewrite length_drop. lia.
Qed.

End RollingWindow.

(** ** Return Standardizer: invariances *)

Section StandardizerInvariance.
Local Open Scope R_scope.

Lemma rsum_map_add (c : R) (l : list R) :
  rsum (map (fun x => x + c) l) = rsum l + INR (length l) * c.
Proof.
  induction l as [|x l IH]; cbn [map length].
  - rewrite !rsum_nil. cbn [INR]. lra.
  - rewrite !rsum_cons, IH, S_INR. lra.
Qed.

Lemma rmean_shift (c : R) (l : list R) :
  (1 <= length l)%nat -> rmean (map (fun x => x + c) l) = rmean l + c.
Proof.
  intros Hl. unfold rmean. rewrite rsum_map_add, length_map.
  assert (INR (length l) <> 0) by (apply not_0_INR; lia). field. assumption.
Qed.

Lemma rstd_shift (c : R) (l : list R) :
  (1 <= length l)%nat -> rstd (map (fun x => x + c) l) = rstd l.
Proof.
  intros Hl. unfold rstd. rewrite rmean_shift by exact Hl.
  rewrite map_map, length_map. f_equal. f_equal. f_equal.
  apply map_ext. intros x. lra.
Qed.

Lemma map_lookup {A B} (f : A -> B) (l : list A) (i : nat) :
  map f l !! i = f <$> (l !! i).
Proof.
  revert i. induction l as [|a l IH]; intros [|i]; try reflexivity. apply IH.
Qed.





End StandardizerInvariance.

(** ** Rollouts: what a trajectory leaves alone, and how training and
    evaluation agree *)

Section Rollouts.
Context `{Sim : Simulator} `{TL : TensorLib} `{Net : !Networks}.
Variables (policy value_function : Module).

Lemma trajectory_step_frame state (w : World) out w' :
  trajectory_step policy value_function state w = (out, w') ->
  w_store w' = w_store w /\ w_opt w' = w_opt w /\ w_stdout w' = w_stdout w.
Proof.
  unfold trajectory_step, act.
  destruct (policy_sample policy (w_store w) state (w_rng w)) as [[a l] rng].
  destruct (env_step _ a) as [[[[n rw] d] t] env].
  intros [= _ <-]. done.
Qed.

Lemma trajectory_loop_frame (steps : nat) :
  forall state log_probs rewards state_values (w : World),
    let res := trajectory_loop policy value_function steps state
                 log_probs rewards state_values w in
    w_store res.2 = w_store w /\ w_opt res.2 = w_opt w /\
    w_stdout res.2 = w_stdout w.
Proof.
  induction steps as [|n IH]; intros state lps rs vs w; [cbn; done|].
  cbn [trajectory_loop].
  destruct (trajectory_step policy value_function state w)
    as [[[[[lp r] v] next] done] w'] eqn:Hstep.
  apply trajectory_step_frame in Hstep as (Hs & Ho & Hp).
  destruct done; [cbn; done|].
  specialize (IH next (lps ++ [lp]) (rs ++ [r]) (vs ++ [v]) w').
  cbn zeta in IH |- *. destruct IH as (-> & -> & ->). done.
Qed.

Lemma generate_trajectory_unchanged (max_steps : Z) (w : World) :
  let res := generate_trajectory policy value_function max_steps w in
  w_store res.2 = w_store w /\ w_opt res.2 = w_opt w /\
  w_stdout res.2 = w_stdout w.
Proof.
  unfold generate_trajectory. destruct (env_reset (w_env w)) as [state env].
  apply (trajectory_loop_frame (Z.to_nat max_steps) state [] [] []
           (set_env env w)).
Qed.

(** X8: generating a trajectory changes no parameter, no gradient buffer, no
    optimizer state and prints nothing, whatever the step limit: it only
    advances the simulator and the random generator. *)
Theorem generate_trajectory_frame (max_steps : Z) (w : World) :
  let res := generate_trajectory policy value_function max_steps w in
  w_store res.2 = w_store w /\ w_opt res.2 = w_opt w /\
  w_stdout res.2 = w_stdout w.
Proof. apply generate_trajectory_unchanged. Qed.

(** The inner loop of the Evaluation Driver follows the loop of the
    Trajectory Generator step by step. *)
Lemma rollouts_agree (steps : nat) :
  forall (start : nat) state log_probs rewards state_values (acc : Q)
         (step : option nat) (w : World),
    let res := trajectory_loop policy value_function steps state
                 log_probs rewards state_values w in
    exists new,
      res.1.1.2 = rewards ++ new /\
      evaluate_steps policy (seq start steps) state acc step w
      = ((fold_left Qplus new acc,
          if steps is O then step else Some (start + length new - 1)%nat),
         res.2).
Proof.
  induction steps as [|n IH]; intros start state lps rs vs acc step w.
  - exists []. cbn. rewrite app_nil_r. done.
  - cbn [trajectory_loop seq evaluate_steps]. unfold trajectory_step.
    destruct (act policy state w) as [[action lp] w1].
    destruct (env_step (w_env w1) action)
      as [[[[next reward] done] truncated] env].
    destruct done.
    + exists [reward]. cbn [fst snd fold_left length]. split; [reflexivity|].
      do 3 f_equal. lia.
    + destruct (IH (S start) next (lps ++ [lp]) (rs ++ [reward])
                  (vs ++ [call_value value_function state w1])
                  (acc + reward)%Q (Some start) (set_env env w1))
        as (new & Hrs & Hev).
      cbn zeta in Hrs, Hev. exists (reward :: new).
      rewrite Hrs, Hev, <- app_assoc. cbn [app fold_left length].
      split; [reflexivity|]. do 3 f_equal.
      destruct n as [|n]; [|f_equal; lia].
      cbn in Hrs. apply (f_equal length) in Hrs.
      rewrite !length_app in Hrs. cbn in Hrs.
      assert (length new = 0)%nat as -> by lia. f_equal. lia.
Qed.

(** X9: one evaluation episode and one training trajectory from the same
    world are the same rollout: the evaluation returns the sum and the
    number of the trajectory's rewards and leaves the simulator and the
    random generator where the trajectory leaves them. *)
Theorem evaluate_matches_trajectory (max_steps : Z) (w : World) :
  let res := generate_trajectory policy value_function max_steps w in
  (1 <= max_steps)%Z ->
  exists w',
    evaluate policy 1 max_steps w
    = Ok (([py_sum res.1.1.2], [Z.of_nat (length res.1.1.2)]), w') /\
    w_env w' = w_env res.2 /\ w_rng w' = w_rng res.2.
Proof.
  intros res Hmax.
  pose proof (generate_trajectory_lengths policy value_function max_steps w)
    as (_ & Hlen & _).
  pose proof (steps_until_done_bounds
                (episode_flags policy value_function max_steps w)) as Hb.
  rewrite length_episode_flags in Hb. specialize (Hb ltac:(lia)).
  fold res in Hlen. rewrite <- Hlen in Hb. clear Hlen.
  unfold evaluate. change (py_range 1 (1 + 1)) with [1%Z].
  cbn [evaluate_loop]. unfold res, generate_trajectory in *.
  destruct (env_reset (w_env w)) as [state env].
  destruct (rollouts_agree (Z.to_nat max_steps) O state [] [] [] 0%Q None
              (set_env env w)) as (new & Hrs & Hev).
  cbn zeta in Hrs, Hev. rewrite Hev. cbn [app] in Hrs. rewrite Hrs in *.
  destruct (Z.to_nat max_steps) as [|m] eqn:Hm; [lia|].
  cbn [evaluate_loop mbind result_bind app].
  replace (Z.of_nat (0 + length new - 1) + 1)%Z with (Z.of_nat (length new))
    by lia.
  eexists. split; [reflexivity|]. cbn. done.
Qed.

End Rollouts.

(** The stub, cut off after two of its three steps. *)
Lemma evaluate_matches_trajectory_witness :
  let r := fun _ _ : nat => 1%Q in
  let N := stub_networks 3 r in
  let w := stub_world 3 r in
  (1 <= 2)%Z /\
  exists w',
    @evaluate _ _ N stub_policy 1 2 w = Ok (([2%Q], [2%Z]), w').
Proof.
  intros r N w. split; [lia|].
  destruct (@evaluate_matches_trajectory _ _ N stub_policy stub_value 2%Z w
              ltac:(lia)) as (w' & Hev & _).
  exists w'. rewrite Hev. reflexivity.
Defined.

(** ** Optimisation steps: stale gradients *)

Section StaleGradients.
Context `{Sim : Simulator} `{TL : TensorLib} `{Net : !Networks}.

Lemma foldl_alter_lookup {A} (f : A -> A) (l : list ParamId)
    (store : gmap ParamId A) (id : ParamId) :
  (forall e, f (f e) = f e) ->
  foldl (fun s i => alter f i s) store l !! id
  = if decide (id ∈ l) then f <$> store !! id else store !! id.
Proof.
  intros Hidem. revert store.
  induction l as [|i l IH]; intros store; cbn [foldl].
  - destruct (decide (id ∈ [])) as [Hin|_]; [|reflexivity].
    apply elem_of_nil in Hin. contradiction.
  - rewrite IH. destruct (decide (i = id)) as [->|Hne].
    + rewrite lookup_alter_eq.
      destruct (decide (id ∈ id :: l)) as [_|Hn];
        [|exfalso; apply Hn; left].
      destruct (decide (id ∈ l)); [|reflexivity].
      destruct (store !! id); cbn; [rewrite Hidem|]; reflexivity.
    + rewrite lookup_alter_ne by exact Hne.
      destruct (decide (id ∈ l)) as [Hin|Hn];
        destruct (decide (id ∈ i :: l)) as [Hin'|Hn']; try reflexivity.
      * exfalso. apply Hn'. right. exact Hin.
      * exfalso. apply elem_of_cons in Hin' as [->|Hin']; [congruence|].
        exact (Hn Hin').
Qed.

Lemma zero_grad_forgets (opt : Optimizer) (w1 w2 : World) :
  w_env w1 = w_env w2 -> w_rng w1 = w_rng w2 ->
  w_opt w1 = w_opt w2 -> w_stdout w1 = w_stdout w2 ->
  (forall id, id ∉ param_group opt -> w_store w1 !! id = w_store w2 !! id) ->
  (forall id, id ∈ param_group opt ->
              p_data <$> w_store w1 !! id = p_data <$> w_store w2 !! id) ->
  zero_grad opt w1 = zero_grad opt w2.
Proof.
  intros He Hr Ho Hs Hout Hin. unfold zero_grad, set_store.
  rewrite He, Hr, Ho, Hs. f_equal. apply map_eq. intros id.
  rewrite !(foldl_alter_lookup (fun e => mkP (p_data e) None))
    by reflexivity.
  destruct (decide (id ∈ param_group opt)) as [Hid|Hid]; [|apply Hout, Hid].
  specialize (Hin id Hid).
  destruct (w_store w1 !! id) as [[d1 g1]|], (w_store w2 !! id) as [[d2 g2]|];
    cbn in Hin |- *; congruence.
Qed.

(** X10: the gradient buffers an optimizer's parameters held before a step do
    not influence it: two worlds that differ only in those buffers give the
    same result, for the critic's step and for the actor's. *)
Theorem stale_gradients_ignored (opt : Optimizer) (log_probs : list Tensor)
    (returns : Tensor) (state_values : list Tensor) (w1 w2 : World) :
  w_env w1 = w_env w2 -> w_rng w1 = w_rng w2 ->
  w_opt w1 = w_opt w2 -> w_stdout w1 = w_stdout w2 ->
  (forall id, id ∉ param_group opt -> w_store w1 !! id = w_store w2 !! id) ->
  (forall id, id ∈ param_group opt ->
              p_data <$> w_store w1 !! id = p_data <$> w_store w2 !! id) ->
  optimise_value_function opt returns state_values w1
  = optimise_value_function opt returns state_values w2 /\
  optimise_policy opt log_probs returns state_values w1
  = optimise_policy opt log_probs returns state_values w2.
Proof.
  intros He Hr Ho Hs Hout Hin.
  pose proof (zero_grad_forgets opt w1 w2 He Hr Ho Hs Hout Hin) as Hz.
  unfold optimise_value_function, optimise_policy. rewrite Hz. done.
Qed.

End StaleGradients.

(** The stub's world, and the same world with a gradient left on value
    parameter 3. *)
Lemma stale_gradients_ignored_witness :
  let r := fun _ _ : nat => 1%Q in
  let N := stub_networks 2 r in
  let w1 := stub_world 2 r in
  let w2 := set_store (<[3%positive := @mkP stub_tensorlib 30%Z (Some 7%Z)]>
                         stub_store) w1 in
  @optimise_value_function _ _ N stub_value_optimizer
    stub_returns stub_state_values w1
  = @optimise_value_function _ _ N stub_value_optimizer
      stub_returns stub_state_values w2.
Proof.
  intros r N w1 w2.
  apply (@stale_gradients_ignored _ _ N stub_value_optimizer stub_log_probs
           stub_returns stub_state_values w1 w2); try reflexivity.
  - intros id Hid. cbn [w2 w1 stub_world w_store set_store].
    rewrite lookup_insert_ne; [reflexivity|].
    intros <-. apply Hid. left.
  - intros id Hid. cbn [w2 w1 stub_world w_store set_store].
    destruct (decide (id = 3%positive)) as [->|Hne]; [reflexivity|].
    rewrite lookup_insert_ne by congruence. reflexivity.
Defined.

(** ** Training Driver: length of the history, errors, what it leaves alone *)

Section TrainingBehaviour.
Context `{Sim : Simulator} `{TL : TensorLib} `{Net : !Networks}.
Variables (policy value_function : Module).
Variables (policy_optimizer value_optimizer : Optimizer).

#[local] Arguments standardise_returns : simpl never.
#[local] Arguments calculate_discounted_returns : simpl never.
#[local] Arguments generate_trajectory : simpl never.
#[local] Arguments optimise_value_function : simpl never.
#[local] Arguments optimise_policy : simpl never.
#[local] Arguments early_stopping : simpl never.
#[local] Arguments log_progress : simpl never.
#[local] Arguments window : simpl never.

Abbreviation run thr li ms g := (train_loop policy value_function
  policy_optimizer value_optimizer ms g li thr).

(** The three calls that follow the trajectory in an episode return. *)
Lemma episode_update_returns (max_steps : Z) (gamma : Q) (w : World) :
  (1 <= max_steps)%Z ->
  parameters policy <> [] ->
  parameters value_function <> [] ->
  let res := generate_trajectory policy value_function max_steps w in
  exists returns w2 w3,
    calculate_discounted_returns res.1.1.2 max_steps gamma = Ok returns /\
    optimise_value_function value_optimizer (standardise_returns returns)
      res.1.2 res.2 = Ok w2 /\
    optimise_policy policy_optimizer res.1.1.1 (standardise_returns returns)
      res.1.2 w2 = Ok w3.
Proof.
  intros Hmax Hpp Hpv res.
  pose proof (generate_trajectory_lengths policy value_function max_steps w)
    as (Hl1 & Hl2 & Hl3).
  pose proof (steps_until_done_bounds
                (episode_flags policy value_function max_steps w)) as Hb.
  rewrite length_episode_flags in Hb. specialize (Hb ltac:(lia)).
  pose proof (generate_trajectory_shapes policy value_function max_steps w)
    as [Hs1 Hs2].
  fold res in Hl1, Hl2, Hl3, Hs1, Hs2.
  destruct res as [[[lps rs] vs] w1]. cbn [fst snd] in *.
  rewrite calculate_discounted_returns_eq.
  destruct (Z.ltb_spec max_steps 0); [lia|].
  set (returns := Deque.mk _ _).
  assert (length (t_data (standardise_returns returns)) = length vs) as Hret.
  { rewrite standardise_returns_length. unfold returns. cbn [items].
    rewrite length_take, length_discounted. lia. }
  assert (vs <> []) as Hne by (destruct vs; [cbn in Hl3; lia | discriminate]).
  destruct (optimise_value_function_returns value_function value_optimizer
              (standardise_returns returns) vs w1 Hpv Hs2 Hne Hret) as [w2 Hv].
  destruct (optimise_policy_returns policy value_function policy_optimizer lps
              (standardise_returns returns) vs w2 Hpp Hs1 Hs2 Hne
              ltac:(congruence) Hret) as [w3 Hp].
  exists returns, w2, w3. auto.
Qed.

Ltac episode H :=
  cbn [train_loop app] in H |- *;
  destruct (generate_trajectory policy value_function _ _)
    as [[[?log_probs ?rewards] ?state_values] ?w];
  destruct (calculate_discounted_returns _ _ _)
    as [?returns|?e]; [|discriminate H];
  cbn [mbind result_bind] in H |- *;
  destruct (optimise_value_function value_optimizer _ _ _)
    as [?w|?e]; [|discriminate H];
  cbn [mbind result_bind] in H |- *;
  destruct (optimise_policy policy_optimizer _ _ _ _)
    as [?w|?e]; [|discriminate H];
  cbn [mbind result_bind] in H |- *.

(** With a threshold the loop stops at the first history that meets the
    stop condition and at no other. *)
Lemma train_loop_threshold (thr : Q) (li ms : Z) (g : Q) (indices : list Z) :
  forall (h : list Q) (w : World) scores w',
    run (Some thr) li ms g indices (Deque.mk 100 (window h)) h w
    = Ok (scores, w') ->
    exists new,
      scores = h ++ new /\
      (length new <= length indices)%nat /\
      (forall j, (length h < j < length scores)%nat ->
                 stop_condition thr (take j scores) = false) /\
      ((length new < length indices)%nat ->
       stop_condition thr scores = true).
Proof.
  induction indices as [|i indices IH]; intros h w scores w' Hrun.
  - cbn in Hrun. injection Hrun as <- <-. exists []. rewrite app_nil_r.
    repeat split; [cbn; lia | intros; lia | cbn; lia].
  - episode Hrun. rewrite append_window in Hrun.
    destruct (stop_condition thr (h ++ [py_sum rewards])) eqn:Hstop.
    + destruct (early_stopping_break thr i _ w2 Hstop)
        as (avg & best & worst & Hbreak).
      rewrite Hbreak in Hrun. cbn [mbind result_bind] in Hrun.
      injection Hrun as <- <-. exists [py_sum rewards].
      repeat split; [cbn; lia | | intros _; exact Hstop].
      intros j. rewrite length_app. cbn. lia.
    + rewrite (early_stopping_continue thr i _ w2 Hstop) in Hrun.
      cbn [mbind result_bind] in Hrun.
      destruct (log_progress i li _ _) as [w3|e]; [|discriminate Hrun].
      cbn [mbind result_bind] in Hrun.
      apply IH in Hrun as (new & -> & Hlen & Hfirst & Hlast).
      assert ((h ++ [py_sum rewards]) ++ new = h ++ py_sum rewards :: new)
        as E by (rewrite <- app_assoc; reflexivity).
      exists (py_sum rewards :: new). cbn [length].
      split; [exact E|]. split; [lia|]. split; [|intros Hlt; apply Hlast; lia].
      intros j Hj. destruct (decide (j = S (length h))) as [->|Hne].
      * rewrite take_app_length' by (rewrite length_app; cbn; lia).
        exact Hstop.
      * apply Hfirst. rewrite !length_app in Hj. rewrite !length_app.
        cbn [length] in *. lia.
Qed.


(** X12: with a threshold, the returned history never exceeds
    [num_episodes], no proper prefix of it meets the stop condition, and it
    is shorter than [num_episodes] only if it meets the stop condition
    itself, which takes at least 100 episodes. *)
Theorem early_stop_only_when_due (num_episodes max_steps : Z) (gamma : Q)
    (log_interval : Z) (threshold : Q) (w : World) scores w' :
  train_agent policy value_function policy_optimizer value_optimizer
    num_episodes max_steps gamma log_interval (Some threshold) w
  = Ok (scores, w') ->
  (length scores <= Z.to_nat num_episodes)%nat /\
  (forall j, (j < length scores)%nat ->
             stop_condition threshold (take j scores) = false) /\
  ((length scores < Z.to_nat num_episodes)%nat ->
   stop_condition threshold scores = true /\ (100 <= length scores)%nat).
Proof.
  unfold train_agent. cbn [Deque.new Z.ltb Z.compare mbind result_bind].
  change (Z.to_nat 100) with 100%nat. change (@nil Q) with (window []) at 1.
  intros Hrun.
  apply train_loop_threshold in Hrun as (new & -> & Hlen & Hfirst & Hlast).
  rewrite length_py_range in Hlen, Hlast. cbn [app length] in *.
  split; [exact Hlen|]. split.
  - intros [|j] Hj; [reflexivity|]. apply Hfirst. lia.
  - intros Hlt. split; [exact (Hlast Hlt)|].
    apply (stop_condition_length threshold), Hlast, Hlt.
Qed.

Lemma py_range_cons (a b : Z) :
  (a < b)%Z -> py_range a b = a :: py_range (a + 1) b.
Proof.
  intros Hab. unfold py_range.
  replace (Z.to_nat (b - a)) with (S (Z.to_nat (b - (a + 1)))) by lia.
  cbn [seq map]. f_equal; [lia|].
  rewrite <- seq_shift, map_map. apply map_ext. intros i. lia.
Qed.

(** X13: a logging interval of 0 makes the driver raise ZeroDivisionError at
    the end of its first episode, after that episode's update and whatever
    the threshold. *)
Theorem zero_log_interval_raises (num_episodes max_steps : Z) (gamma : Q)
    (thr : option Q) (w : World) :
  (1 <= num_episodes)%Z ->
  (1 <= max_steps)%Z ->
  parameters policy <> [] ->
  parameters value_function <> [] ->
  train_agent policy value_function policy_optimizer value_optimizer
    num_episodes max_steps gamma 0 thr w = Raise ZeroDivisionError.
Proof.
  intros HN Hmax Hpp Hpv. unfold train_agent.
  cbn [Deque.new Z.ltb Z.compare mbind result_bind].
  change (Z.to_nat 100) with 100%nat.
  rewrite py_range_cons by lia. cbn [train_loop].
  pose proof (episode_update_returns max_steps gamma w Hmax Hpp Hpv)
    as (returns & w2 & w3 & Hret & Hv & Hp).
  destruct (generate_trajectory policy value_function max_steps w)
    as [[[lps rs] vs] w1]. cbn [fst snd] in Hret, Hv, Hp.
  rewrite Hret. cbn [mbind result_bind]. rewrite Hv. cbn [mbind result_bind].
  rewrite Hp. cbn [mbind result_bind].
  change (Deque.mk 100 (@nil Q)) with (Deque.mk 100 (window [])).
  rewrite append_window.
  assert (early_stopping thr 1 (Deque.mk 100 (window ([] ++ [py_sum rs]))) w3
          = Ok None) as ->.
  { destruct thr as [t|]; [|reflexivity].
    apply early_stopping_continue. reflexivity. }
  cbn [mbind result_bind]. reflexivity.
Qed.

(** X14: a negative [max_steps] makes the driver raise ValueError in its
    first episode (the returns cannot be stored), and [max_steps = 0] makes
    it raise RuntimeError (the empty trajectory cannot be stacked). *)
Theorem nonpositive_max_steps_raises (num_episodes max_steps : Z) (gamma : Q)
    (log_interval : Z) (thr : option Q) (w : World) :
  (1 <= num_episodes)%Z ->
  ((max_steps < 0)%Z ->
   train_agent policy value_function policy_optimizer value_optimizer
     num_episodes max_steps gamma log_interval thr w = Raise ValueError) /\
  (max_steps = 0%Z ->
   train_agent policy value_function policy_optimizer value_optimizer
     num_episodes max_steps gamma log_interval thr w = Raise RuntimeError).
Proof.
  intros HN. unfold train_agent.
  cbn [Deque.new Z.ltb Z.compare mbind result_bind].
  rewrite py_range_cons by lia. cbn [train_loop]. split; intros Hms.
  - destruct (generate_trajectory policy value_function max_steps w)
      as [[[lps rs] vs] w1].
    rewrite calculate_discounted_returns_eq.
    destruct (Z.ltb_spec max_steps 0); [reflexivity | lia].
  - subst max_steps. unfold generate_trajectory.
    destruct (env_reset (w_env w)) as [state env].
    cbn [Z.to_nat trajectory_loop]. reflexivity.
Qed.

End TrainingBehaviour.


(** The scenario of 10000 episodes with threshold 230: the history of 150
    scores stops early, and meets the stop condition. *)
Lemma early_stop_only_when_due_witness :
  let N := stub_networks 2 late_reward in
  exists scores w',
    @train_agent _ _ N stub_policy stub_value
      stub_policy_optimizer stub_value_optimizer
      10000 1000 (99 # 100) 100 (Some 230%Q) (stub_world 2 late_reward)
    = Ok (scores, w') /\
    length scores = 150%nat /\
    stop_condition 230 scores = true.
Proof.
  intros N.
  assert (exists w',
             @train_agent _ _ N stub_policy stub_value
               stub_policy_optimizer stub_value_optimizer
               10000 1000 (99 # 100) 100 (Some 230%Q)
               (stub_world 2 late_reward)
             = Ok (replicate 50 0%Q ++ replicate 100 230%Q, w'))
    as [w' Hrun] by (eexists; vm_compute; reflexivity).
  exists (replicate 50 0%Q ++ replicate 100 230%Q), w'.
  split; [exact Hrun|]. split; [reflexivity|].
  apply (@early_stop_only_when_due _ _ N stub_policy stub_value
           stub_policy_optimizer stub_value_optimizer
           10000 1000 (99 # 100) 100 230%Q (stub_world 2 late_reward)
           _ w' Hrun).
  vm_compute. lia.
Defined.

(** The stub with a logging interval of 0. *)
Lemma zero_log_interval_raises_witness :
  let N := stub_networks 2 late_reward in
  (1 <= 10)%Z /\ (1 <= 1000)%Z /\
  parameters stub_policy <> [] /\ parameters stub_value <> [] /\
  @train_agent _ _ N stub_policy stub_value
    stub_policy_optimizer stub_value_optimizer
    10 1000 (99 # 100) 0 (Some 230%Q) (stub_world 2 late_reward)
  = Raise ZeroDivisionError.
Proof.
  intros N. split; [lia|]. split; [lia|]. split; [discriminate|].
  split; [discriminate|].
  apply (@zero_log_interval_raises _ _ N stub_policy stub_value
           stub_policy_optimizer stub_value_optimizer); (lia || discriminate).
Defined.

(** The stub with [max_steps = -1] and with [max_steps = 0]. *)
Lemma nonpositive_max_steps_raises_witness :
  let N := stub_networks 2 late_reward in
  (1 <= 10)%Z /\
  ((-1 < 0)%Z /\
   @train_agent _ _ N stub_policy stub_value
     stub_policy_optimizer stub_value_optimizer
     10 (-1) (99 # 100) 100 None (stub_world 2 late_reward)
   = Raise ValueError) /\
  @train_agent _ _ N stub_policy stub_value
    stub_policy_optimizer stub_value_optimizer
    10 0 (99 # 100) 100 None (stub_world 2 late_reward)
  = Raise RuntimeError.
Proof.
  intros N. split; [lia|].
  pose proof (@nonpositive_max_steps_raises _ _ N stub_policy stub_value
                stub_policy_optimizer stub_value_optimizer
                10 (-1) (99 # 100) 100 None (stub_world 2 late_reward)
                ltac:(lia)) as [Hneg _].
  pose proof (@nonpositive_max_steps_raises _ _ N stub_policy stub_value
                stub_policy_optimizer stub_value_optimizer
                10 0 (99 # 100) 100 None (stub_world 2 late_reward)
                ltac:(lia)) as [_ Hzero].
  split; [split; [lia | apply Hneg; lia] | apply Hzero; reflexivity].
Defined.

(** ** Training Driver: what it leaves alone *)

Section TrainingFrame.
Context `{Sim : Simulator} `{TL : TensorLib} `{Net : !Networks}.
Variables (policy value_function : Module).
Variables (policy_optimizer value_optimizer : Optimizer).

#[local] Arguments standardise_returns : simpl never.
#[local] Arguments calculate_discounted_returns : simpl never.
#[local] Arguments generate_trajectory : simpl never.
#[local] Arguments optimise_value_function : simpl never.
#[local] Arguments optimise_policy : simpl never.
#[local] Arguments early_stopping : simpl never.
#[local] Arguments log_progress : simpl never.

Lemma zero_grad_opt (opt : Optimizer) (w : World) :
  w_opt (zero_grad opt w) = w_opt w.
Proof. reflexivity. Qed.

Lemma backward_opt (loss : Tensor) (w w' : World) :
  backward loss w = Ok w' -> w_opt w' = w_opt w.
Proof.
  unfold backward. destruct (decide _); [discriminate|]. intros [= <-].
  reflexivity.
Qed.

Lemma step_opt_other (opt : Optimizer) (w : World) (k : positive) :
  k <> opt_id opt -> w_opt (step opt w) !! k = w_opt w !! k.
Proof.
  intros Hk. unfold step.
  destruct (foldl step_param _ (param_group opt)) as [store st].
  cbn [set_opt w_opt]. apply lookup_insert_ne. congruence.
Qed.

Lemma optimise_value_function_opt (opt : Optimizer) (returns : Tensor)
    (state_values : list Tensor) (w w' : World) (k : positive) :
  optimise_value_function opt returns state_values w = Ok w' ->
  k <> opt_id opt -> w_opt w' !! k = w_opt w !! k.
Proof.
  unfold optimise_value_function. intros Hrun Hk.
  destruct (torch_stack state_values) as [sv|]; [|discriminate].
  cbn in Hrun.
  destruct (mse_loss (squeeze sv) returns) as [loss|]; [|discriminate].
  cbn in Hrun.
  destruct (backward loss (zero_grad opt w)) as [w1|] eqn:Hb; [|discriminate].
  cbn in Hrun. injection Hrun as <-.
  rewrite (step_opt_other _ _ _ Hk), (backward_opt _ _ _ Hb).
  reflexivity.
Qed.

Lemma optimise_policy_opt (opt : Optimizer) (log_probs : list Tensor)
    (returns : Tensor) (state_values : list Tensor) (w w' : World)
    (k : positive) :
  optimise_policy opt log_probs returns state_values w = Ok w' ->
  k <> opt_id opt -> w_opt w' !! k = w_opt w !! k.
Proof.
  unfold optimise_policy. intros Hrun Hk.
  destruct (torch_stack state_values) as [sv|]; [|discriminate].
  cbn in Hrun.
  destruct (broadcast2 tv_sub returns (detach (squeeze sv))) as [adv|];
    [|discriminate].
  cbn in Hrun.
  destruct (mapM _ _) as [losses|]; [|discriminate]. cbn in Hrun.
  destruct (torch_cat losses) as [loss|]; [|discriminate]. cbn in Hrun.
  destruct (backward (t_sum loss) (zero_grad opt w)) as [w1|] eqn:Hb;
    [|discriminate].
  cbn in Hrun. injection Hrun as <-.
  rewrite (step_opt_other _ _ _ Hk), (backward_opt _ _ _ Hb).
  reflexivity.
Qed.

Lemma early_stopping_prints thr (i : Z) (recent : deque Q) (w w' : World) :
  early_stopping thr i recent w = Ok (Some w') ->
  w_store w' = w_store w /\ w_opt w' = w_opt w.
Proof.
  unfold early_stopping. destruct thr as [t|]; [|discriminate].
  destruct (_ =? _)%nat; [|discriminate].
  destruct (np_mean _); [|discriminate]. destruct (Qle_bool _ _); [|discriminate].
  destruct (np_max _); [|discriminate]. cbn [mbind result_bind].
  destruct (np_min _); [|discriminate]. cbn [mbind result_bind].
  intros [= <-]. done.
Qed.

Lemma log_progress_prints (i li : Z) (recent : deque Q) (w w' : World) :
  log_progress i li recent w = Ok w' ->
  w_store w' = w_store w /\ w_opt w' = w_opt w.
Proof.
  unfold log_progress. destruct (py_mod i li) as [r|]; [|discriminate].
  cbn [mbind result_bind]. destruct (r =? 0)%Z; [|intros [= <-]; done].
  destruct (np_max _); [|discriminate]. cbn [mbind result_bind].
  destruct (np_min _); [|discriminate]. cbn [mbind result_bind].
  intros [= <-]. done.
Qed.

Lemma train_loop_frame (ms : Z) (g : Q) (li : Z) thr (indices : list Z) :
  forall (recent : deque Q) (h : list Q) (w : World) scores w',
    train_loop policy value_function policy_optimizer value_optimizer
      ms g li thr indices recent h w = Ok (scores, w') ->
    (forall id, id ∉ param_group policy_optimizer ->
                id ∉ param_group value_optimizer ->
                p_data <$> w_store w' !! id = p_data <$> w_store w !! id) /\
    (forall k, k <> opt_id policy_optimizer -> k <> opt_id value_optimizer ->
               w_opt w' !! k = w_opt w !! k).
Proof.
  induction indices as [|i indices IH]; intros recent h w scores w' Hrun.
  - cbn in Hrun. injection Hrun as <- <-. done.
  - cbn [train_loop] in Hrun.
    pose proof (generate_trajectory_unchanged policy value_function ms w)
      as (Hgs & Hgo & _).
    destruct (generate_trajectory policy value_function ms w)
      as [[[lps rs] vs] w0]. cbn [snd] in Hgs, Hgo.
    destruct (calculate_discounted_returns rs ms g) as [returns|];
      [|discriminate Hrun].
    cbn [mbind result_bind] in Hrun.
    destruct (optimise_value_function _ _ _ _) as [w1|] eqn:Hv;
      [|discriminate Hrun].
    cbn [mbind result_bind] in Hrun.
    destruct (optimise_policy _ _ _ _ _) as [w2|] eqn:Hp; [|discriminate Hrun].
    cbn [mbind result_bind] in Hrun.
    assert ((forall id, id ∉ param_group policy_optimizer ->
                        id ∉ param_group value_optimizer ->
                        p_data <$> w_store w2 !! id = p_data <$> w_store w !! id)
            /\ (forall k, k <> opt_id policy_optimizer ->
                          k <> opt_id value_optimizer ->
                          w_opt w2 !! k = w_opt w !! k)) as [Hd Ho].
    { split.
      - intros id Hip Hiv.
        rewrite (optimise_policy_frame _ _ _ _ _ _ _ Hp Hip).
        rewrite (optimise_value_function_frame _ _ _ _ _ _ Hv Hiv).
        rewrite Hgs. reflexivity.
      - intros k Hkp Hkv.
        rewrite (optimise_policy_opt _ _ _ _ _ _ _ Hp Hkp).
        rewrite (optimise_value_function_opt _ _ _ _ _ _ Hv Hkv).
        rewrite Hgo. reflexivity. }
    destruct (early_stopping thr i _ w2) as [[w3|]|] eqn:Hes;
      [| |discriminate Hrun]; cbn [mbind result_bind] in Hrun.
    + injection Hrun as <- <-.
      apply early_stopping_prints in Hes as [-> ->]. auto.
    + destruct (log_progress i li _ w2) as [w3|] eqn:Hlog;
        [|discriminate Hrun].
      cbn [mbind result_bind] in Hrun.
      apply log_progress_prints in Hlog as [Hls Hlo].
      apply IH in Hrun as [Hd' Ho']. split.
      * intros id Hip Hiv. rewrite (Hd' id Hip Hiv), Hls. auto.
      * intros k Hkp Hkv. rewrite (Ho' k Hkp Hkv), Hlo. auto.
Qed.

(** X15: training changes the contents of no parameter outside the groups of
    its two optimizers, and the state of no other optimizer. *)
Theorem training_frame (num_episodes max_steps : Z) (gamma : Q)
    (log_interval : Z) thr (w : World) scores w' :
  train_agent policy value_function policy_optimizer value_optimizer
    num_episodes max_steps gamma log_interval thr w = Ok (scores, w') ->
  (forall id, id ∉ param_group policy_optimizer ->
              id ∉ param_group value_optimizer ->
              p_data <$> w_store w' !! id = p_data <$> w_store w !! id) /\
  (forall k, k <> opt_id policy_optimizer -> k <> opt_id value_optimizer ->
             w_opt w' !! k = w_opt w !! k).
Proof.
  unfold train_agent. cbn [Deque.new Z.ltb Z.compare mbind result_bind].
  apply train_loop_frame.
Qed.

End TrainingFrame.

(** Three episodes of training on the stub, with a fifth parameter that
    belongs to neither module. *)
Lemma training_frame_witness :
  let N := stub_networks 2 late_reward in
  let w := set_store (<[5%positive := @mkP stub_tensorlib 50%Z None]> stub_store)
                     (stub_world 2 late_reward) in
  exists scores w',
    @train_agent _ _ N stub_policy stub_value
      stub_policy_optimizer stub_value_optimizer
      3 1000 (99 # 100) 100 None w = Ok (scores, w') /\
    @p_data stub_tensorlib <$> w_store w' !! 5%positive = Some 50%Z /\
    @p_data stub_tensorlib <$> w_store w' !! 1%positive = Some 7%Z.
Proof.
  intros N w.
  destruct (@train_agent _ _ N stub_policy stub_value
              stub_policy_optimizer stub_value_optimizer
              3 1000 (99 # 100) 100 None w) as [[scores w']|e] eqn:Hrun;
    [|vm_compute in Hrun; discriminate Hrun].
  exists scores, w'. split; [reflexivity|].
  destruct (@training_frame _ _ N stub_policy stub_value
              stub_policy_optimizer stub_value_optimizer
              3 1000 (99 # 100) 100 None w scores w' Hrun) as [Hd _].
  split.
  - rewrite (Hd 5%positive); [reflexivity | |];
      intros Hin; apply list_elem_of_In in Hin; cbn in Hin;
      intuition discriminate.
  - vm_compute in Hrun. injection Hrun as _ <-. reflexivity.
Defined.

(** ** Evaluation Driver: degenerate arguments *)

Section EvaluationEdges.
Context `{Sim : Simulator} `{TL : TensorLib} `{Net : !Networks}.
Variable policy : Module.

(** X16: with at least one episode and [max_steps <= 0] the Evaluation Driver
    raises UnboundLocalError (its loop variable [step] was never bound);
    with [num_episodes <= 0] it returns two empty sequences and prints NaN
    for both means. *)
Theorem evaluate_degenerate (num_episodes max_steps : Z) (w : World) :
  ((1 <= num_episodes)%Z -> (max_steps <= 0)%Z ->
   evaluate policy num_episodes max_steps w = Raise UnboundLocalError) /\
  ((num_episodes <= 0)%Z ->
   evaluate policy num_episodes max_steps w
   = Ok (([], []),
         print (EvalAverageLength None)
           (print (EvalAverageReward None)
              (print (EvalHeader num_episodes) w)))).
Proof.
  unfold evaluate. split.
  - intros HN Hms. rewrite py_range_cons by lia. cbn [evaluate_loop].
    destruct (env_reset (w_env w)) as [state env].
    replace (Z.to_nat max_steps) with O by lia. reflexivity.
  - intros HN. unfold py_range.
    replace (Z.to_nat (num_episodes + 1 - 1)) with O by lia. reflexivity.
Qed.

End EvaluationEdges.

(** The stub with [max_steps = 0], and with no episode. *)
Lemma evaluate_degenerate_witness :
  let r := fun _ _ : nat => 1%Q in
  let N := stub_networks 3 r in
  ((1 <= 10)%Z /\ (0 <= 0)%Z /\
   @evaluate _ _ N stub_policy 10 0 (stub_world 3 r)
   = Raise UnboundLocalError) /\
  ((0 <= 0)%Z /\
   exists w', @evaluate _ _ N stub_policy 0 1000 (stub_world 3 r)
              = Ok (([], []), w')).
Proof.
  intros r N. split.
  - split; [lia|]. split; [lia|].
    apply (proj1 (@evaluate_degenerate _ _ N stub_policy 10 0
                    (stub_world 3 r))); lia.
  - split; [lia|]. eexists.
    apply (proj2 (@evaluate_degenerate _ _ N stub_policy 0 1000
                    (stub_world 3 r))). lia.
Defined.

(** ** Training Driver: the progress log *)

Section ProgressLog.
Context `{Sim : Simulator} `{TL : TensorLib} `{Net : !Networks}.
Variables (policy value_function : Module).
Variables (policy_optimizer value_optimizer : Optimizer).

#[local] Arguments standardise_returns : simpl never.
#[local] Arguments calculate_discounted_returns : simpl never.
#[local] Arguments generate_trajectory : simpl never.
#[local] Arguments optimise_value_function : simpl never.
#[local] Arguments optimise_policy : simpl never.
#[local] Arguments early_stopping : simpl never.
#[local] Arguments log_progress : simpl never.
#[local] Arguments window : simpl never.

Lemma backward_stdout (loss : Tensor) (w w' : World) :
  backward loss w = Ok w' -> w_stdout w' = w_stdout w.
Proof.
  unfold backward. destruct (decide _); [discriminate|]. intros [= <-].
  reflexivity.
Qed.

Lemma step_stdout (opt : Optimizer) (w : World) :
  w_stdout (step opt w) = w_stdout w.
Proof.
  unfold step. destruct (foldl step_param _ (param_group opt)) as [store st].
  reflexivity.
Qed.

Lemma optimise_value_function_stdout (opt : Optimizer) (returns : Tensor)
    (state_values : list Tensor) (w w' : World) :
  optimise_value_function opt returns state_values w = Ok w' ->
  w_stdout w' = w_stdout w.
Proof.
  unfold optimise_value_function. intros Hrun.
  destruct (torch_stack state_values) as [sv|]; [|discriminate].
  cbn in Hrun.
  destruct (mse_loss (squeeze sv) returns) as [loss|]; [|discriminate].
  cbn in Hrun.
  destruct (backward loss (zero_grad opt w)) as [w1|] eqn:Hb; [|discriminate].
  cbn in Hrun. injection Hrun as <-.
  rewrite step_stdout, (backward_stdout _ _ _ Hb). reflexivity.
Qed.

Lemma optimise_policy_stdout (opt : Optimizer) (log_probs : list Tensor)
    (returns : Tensor) (state_values : list Tensor) (w w' : World) :
  optimise_policy opt log_probs returns state_values w = Ok w' ->
  w_stdout w' = w_stdout w.
Proof.
  unfold optimise_policy. intros Hrun.
  destruct (torch_stack state_values) as [sv|]; [|discriminate].
  cbn in Hrun.
  destruct (broadcast2 tv_sub returns (detach (squeeze sv))) as [adv|];
    [|discriminate].
  cbn in Hrun.
  destruct (mapM _ _) as [losses|]; [|discriminate]. cbn in Hrun.
  destruct (torch_cat losses) as [loss|]; [|discriminate]. cbn in Hrun.
  destruct (backward (t_sum loss) (zero_grad opt w)) as [w1|] eqn:Hb;
    [|discriminate].
  cbn in Hrun. injection Hrun as <-.
  rewrite step_stdout, (backward_stdout _ _ _ Hb). reflexivity.
Qed.

Lemma log_progress_line (i li : Z) (h : list Q) (w w' : World) :
  log_progress i li (Deque.mk 100 (window h)) w = Ok w' ->
  w_stdout w'
  = w_stdout w ++ (if (i mod li =? 0)%Z then stats_line i h else []).
Proof.
  unfold log_progress, py_mod, stats_line. cbn [items].
  destruct (li =? 0)%Z; [discriminate|]. cbn [mbind result_bind].
  destruct (i mod li =? 0)%Z; [|intros [= <-]; rewrite app_nil_r; reflexivity].
  destruct (window h) as [|x l]; [discriminate|].
  cbn [np_max np_min mbind result_bind]. intros [= <-]. reflexivity.
Qed.

Lemma train_loop_log (ms : Z) (g : Q) (li : Z) (m : nat) :
  forall (h : list Q) (w : World) scores w',
    train_loop policy value_function policy_optimizer value_optimizer
      ms g li None
      (map (fun i => (1 + Z.of_nat i)%Z) (seq (length h) m))
      (Deque.mk 100 (window h)) h w = Ok (scores, w') ->
    w_stdout w' = w_stdout w ++ progress_log li (S (length h)) m scores.
Proof.
  induction m as [|m IH]; intros h w scores w' Hrun.
  - cbn in Hrun. injection Hrun as <- <-. cbn. rewrite app_nil_r. reflexivity.
  - cbn [seq map train_loop] in Hrun.
    pose proof (generate_trajectory_unchanged policy value_function ms w)
      as (_ & _ & Hgo).
    destruct (generate_trajectory policy value_function ms w)
      as [[[lps rs] vs] w0]. cbn [snd] in Hgo.
    destruct (calculate_discounted_returns rs ms g) as [returns|];
      [|discriminate Hrun].
    cbn [mbind result_bind] in Hrun.
    destruct (optimise_value_function _ _ _ _) as [w1|] eqn:Hv;
      [|discriminate Hrun].
    cbn [mbind result_bind] in Hrun.
    destruct (optimise_policy _ _ _ _ _) as [w2|] eqn:Hp; [|discriminate Hrun].
    cbn [mbind result_bind] in Hrun.
    rewrite early_stopping_none in Hrun. cbn [mbind result_bind] in Hrun.
    rewrite append_window in Hrun.
    destruct (log_progress _ li _ w2) as [w3|] eqn:Hlog; [|discriminate Hrun].
    cbn [mbind result_bind] in Hrun.
    apply log_progress_line in Hlog.
    pose proof (train_loop_all _ _ _ _ _ _ _ _ _ _ _ _ _ Hrun)
      as (new & Hscores & _).
    replace (S (length h)) with (length (h ++ [py_sum rs])) in Hrun
      by (rewrite length_app; cbn; lia).
    apply IH in Hrun. rewrite Hrun, Hlog.
    rewrite (optimise_policy_stdout _ _ _ _ _ _ Hp).
    rewrite (optimise_value_function_stdout _ _ _ _ _ Hv), Hgo.
    rewrite <- app_assoc. f_equal. unfold progress_log.
    cbn [seq flat_map]. rewrite length_app. cbn [length].
    replace (length h + 1)%nat with (S (length h)) by lia.
    replace (1 + Z.of_nat (length h))%Z with (Z.of_nat (S (length h))) by lia.
    f_equal. rewrite Hscores.
    rewrite take_app_length' by (rewrite length_app; cbn; lia). reflexivity.
Qed.

Lemma progress_log_run (num_episodes max_steps : Z) (gamma : Q)
    (log_interval : Z) (w : World) scores w' :
  train_agent policy value_function policy_optimizer value_optimizer
    num_episodes max_steps gamma log_interval None w = Ok (scores, w') ->
  w_stdout w' = w_stdout w ++ progress_log log_interval 1 (length scores) scores.
Proof.
  unfold train_agent. cbn [Deque.new Z.ltb Z.compare mbind result_bind].
  change (Z.to_nat 100) with 100%nat. intros Hrun.
  pose proof (train_loop_all _ _ _ _ _ _ _ _ _ _ _ _ _ Hrun)
    as (new & Hscores & Hlen).
  cbn [app] in Hscores. subst new. rewrite length_py_range in Hlen.
  unfold py_range in Hrun.
  replace (Z.to_nat (num_episodes + 1 - 1)) with (length scores) in Hrun
    by lia.
  change (Deque.mk 100 (@nil Q)) with (Deque.mk 100 (window [])) in Hrun.
  apply (train_loop_log max_steps gamma log_interval (length scores) []) in Hrun.
  exact Hrun.
Qed.

(** X17: a run without a threshold prints, after what was printed before,
    exactly one line for every episode whose number is a multiple of the
    logging interval, with the mean, the best and the worst of the rolling
    window at the end of that episode. *)
Theorem training_prints_progress (num_episodes max_steps : Z) (gamma : Q)
    (log_interval : Z) (w : World) scores w' :
  train_agent policy value_function policy_optimizer value_optimizer
    num_episodes max_steps gamma log_interval None w = Ok (scores, w') ->
  w_stdout w' = w_stdout w ++ progress_log log_interval 1 (length scores) scores.
Proof. apply progress_log_run. Qed.

End ProgressLog.

(** Six episodes on the stub with a logging interval of 3: lines for
    episodes 3 and 6. *)
Lemma training_prints_progress_witness :
  let N := stub_networks 2 (fun _ _ : nat => 1%Q) in
  exists scores w' a3 a6,
    @train_agent _ _ N stub_policy stub_value
      stub_policy_optimizer stub_value_optimizer
      6 1000 (99 # 100) 3 None (stub_world 2 (fun _ _ : nat => 1%Q))
    = Ok (scores, w') /\
    w_stdout w' = [StatsLine 3 (Some a3) 2 2; StatsLine 6 (Some a6) 2 2].
Proof.
  intros N.
  destruct (@train_agent _ _ N stub_policy stub_value
              stub_policy_optimizer stub_value_optimizer
              6 1000 (99 # 100) 3 None (stub_world 2 (fun _ _ : nat => 1%Q)))
    as [[scores w']|e] eqn:Hrun; [|vm_compute in Hrun; discriminate Hrun].
  pose proof (@training_prints_progress _ _ N stub_policy stub_value
                stub_policy_optimizer stub_value_optimizer
                6 1000 (99 # 100) 3 (stub_world 2 (fun _ _ : nat => 1%Q))
                scores w' Hrun) as Hlog.
  vm_compute in Hrun. injection Hrun as <- <-.
  eexists _, _, _, _. split; [reflexivity|]. reflexivity.
Defined.

(** ** Training Driver: the figures of a progress line *)

Section ProgressFigures.

Lemma q_min_le (a b : Q) : (q_min a b <= a)%Q /\ (q_min a b <= b)%Q.
Proof.
  unfold q_min. destruct (Qle_bool a b) eqn:E.
  - apply Qle_bool_iff in E. split; [apply Qle_refl | exact E].
  - split; [|apply Qle_refl].
    destruct (Qlt_le_dec b a) as [Hlt|Hle]; [apply Qlt_le_weak; exact Hlt|].
    apply Qle_bool_iff in Hle. congruence.
Qed.

Lemma q_max_ge (a b : Q) : (a <= q_max a b)%Q /\ (b <= q_max a b)%Q.
Proof.
  unfold q_max. destruct (Qle_bool a b) eqn:E.
  - apply Qle_bool_iff in E. split; [exact E | apply Qle_refl].
  - split; [apply Qle_refl|].
    destruct (Qlt_le_dec b a) as [Hlt|Hle]; [apply Qlt_le_weak; exact Hlt|].
    apply Qle_bool_iff in Hle. congruence.
Qed.

Lemma fold_min_lower (l : list Q) :
  forall x, (fold_left q_min l x <= x)%Q
            /\ Forall (fun y => (fold_left q_min l x <= y)%Q) l.
Proof.
  induction l as [|a l IH]; intros x; cbn [fold_left].
  - split; [apply Qle_refl | constructor].
  - destruct (IH (q_min x a)) as [H1 H2].
    destruct (q_min_le x a) as [Hx Ha].
    split; [eapply Qle_trans; eassumption|].
    constructor; [eapply Qle_trans; eassumption | exact H2].
Qed.

Lemma fold_max_upper (l : list Q) :
  forall x, (x <= fold_left q_max l x)%Q
            /\ Forall (fun y => (y <= fold_left q_max l x)%Q) l.
Proof.
  induction l as [|a l IH]; intros x; cbn [fold_left].
  - split; [apply Qle_refl | constructor].
  - destruct (IH (q_max x a)) as [H1 H2].
    destruct (q_max_ge x a) as [Hx Ha].
    split; [eapply Qle_trans; eassumption|].
    constructor; [eapply Qle_trans; eassumption | exact H2].
Qed.

Lemma inject_length_cons (r : Q) (l : list Q) :
  (inject_Z (Z.of_nat (length (r :: l))) == 1 + inject_Z (Z.of_nat (length l)))%Q.
Proof.
  cbn [length]. rewrite Nat2Z.inj_succ, <- Z.add_1_l, inject_Z_plus.
  reflexivity.
Qed.

Lemma py_sum_lower (m : Q) (l : list Q) :
  Forall (fun y => (m <= y)%Q) l ->
  (m * inject_Z (Z.of_nat (length l)) <= py_sum l)%Q.
Proof.
  induction 1 as [|r l Hr _ IH].
  - unfold py_sum. cbn [length fold_left Z.of_nat].
    change (inject_Z 0) with 0%Q. rewrite Qmult_0_r. apply Qle_refl.
  - rewrite inject_length_cons, py_sum_cons, Qmult_plus_distr_r, Qmult_1_r.
    apply Qplus_le_compat; assumption.
Qed.

Lemma py_sum_upper (m : Q) (l : list Q) :
  Forall (fun y => (y <= m)%Q) l ->
  (py_sum l <= m * inject_Z (Z.of_nat (length l)))%Q.
Proof.
  induction 1 as [|r l Hr _ IH].
  - unfold py_sum. cbn [length fold_left Z.of_nat].
    change (inject_Z 0) with 0%Q. rewrite Qmult_0_r. apply Qle_refl.
  - rewrite inject_length_cons, py_sum_cons, Qmult_plus_distr_r, Qmult_1_r.
    apply Qplus_le_compat; assumption.
Qed.

Lemma stats_line_consistent (i : Z) (history : list Q) :
  Forall consistent_line (stats_line i history).
Proof.
  unfold stats_line. destruct (window history) as [|x l]; constructor;
    [|constructor].
  cbn [consistent_line np_mean].
  assert (Hpos : (0 < inject_Z (Z.of_nat (length (x :: l))))%Q).
  { change 0%Q with (inject_Z 0). rewrite <- Zlt_Qlt. cbn [length]. lia. }
  destruct (fold_min_lower l x) as [Hx Hl].
  destruct (fold_max_upper l x) as [Hx' Hl'].
  split.
  - apply Qle_shift_div_l; [exact Hpos|].
    apply py_sum_lower. constructor; assumption.
  - apply Qle_shift_div_r; [exact Hpos|].
    apply py_sum_upper. constructor; assumption.
Qed.

Lemma progress_log_consistent (li : Z) (first count : nat) (scores : list Q) :
  Forall consistent_line (progress_log li first count scores).
Proof.
  unfold progress_log. revert first.
  induction count as [|count IH]; intros first; cbn [seq flat_map];
    [constructor|].
  apply Forall_app. split; [|apply IH].
  destruct (_ =? 0)%Z; [apply stats_line_consistent | constructor].
Qed.

Context `{Sim : Simulator} `{TL : TensorLib} `{Net : !Networks}.
Variables (policy value_function : Module).
Variables (policy_optimizer value_optimizer : Optimizer).


End ProgressFigures.

